(** * SiPANN.SiP: compact models of silicon photonic devices

    A shallow embedding of [SiPANN/SiP.py].

    Numbers.  numpy's [float64] is read as a real number and [complex128]
    as a pair of reals: rounding is not modelled, and a division by zero,
    which numpy answers with inf or nan, has no counterpart here (Rocq's
    [x / 0] is [0]).  A theorem that asserts the numerical value of an
    amplitude therefore assumes that the divisions behind it are by
    non-zero numbers: the wavelength is not zero and, for the ring, the
    loop is not exactly on resonance.

    Arrays.  A wavelength array is a 0-d or a 1-d [ndarray]; an S-matrix is
    a stack of square matrices, one per frequency point; Python exceptions
    are the [Raise] results of an error monad. *)

From Stdlib Require Import String Reals Lra Lia Arith Bool List.
Import ListNotations.

(** ** Python exceptions *)

(** The last two are the errors the specification names for the network
    cascader. *)
Inductive exn : Type :=
| IndexError | TypeError | NameError | ValueError
| PortIndexOutOfRange | DimensionMismatch.

Inductive result (A : Type) : Type :=
| Ok (a : A)
| Raise (e : exn).
Arguments Ok {A} a.
Arguments Raise {A} e.

Definition bind {A B : Type} (m : result A) (k : A -> result B) : result B :=
  match m with
  | Ok a => k a
  | Raise e => Raise e
  end.

Notation "x <- m ;; k" := (bind m (fun x => k))
  (at level 61, m at next level, right associativity).
Notation "' pat <- m ;; k" := (bind m (fun x => let 'pat := x in k))
  (at level 61, pat pattern, m at next level, right associativity).

(** ** complex128 *)

Record C : Type := mkC { Re : R; Im : R }.

Declare Scope C_scope.
Delimit Scope C_scope with C.
Bind Scope C_scope with C.

Definition RtoC (x : R) : C := mkC x 0.
Coercion RtoC : R >-> C.

(** Python's [1j]. *)
Definition Ci : C := mkC 0 1.

Definition Cadd (a b : C) : C := mkC (Re a + Re b) (Im a + Im b).
Definition Cneg (a : C) : C := mkC (- Re a) (- Im a).
Definition Csub (a b : C) : C := mkC (Re a - Re b) (Im a - Im b).
Definition Cmul (a b : C) : C :=
  mkC (Re a * Re b - Im a * Im b) (Re a * Im b + Im a * Re b).
Definition Cdiv (a b : C) : C :=
  mkC ((Re a * Re b + Im a * Im b) / (Re b * Re b + Im b * Im b))
      ((Im a * Re b - Re a * Im b) / (Re b * Re b + Im b * Im b)).

(** [np.exp] on a complex number. *)
Definition Cexp (a : C) : C :=
  mkC (exp (Re a) * cos (Im a)) (exp (Re a) * sin (Im a)).

(** [abs(z)**2] and [abs(z)]. *)
Definition Cnorm2 (a : C) : R := Re a * Re a + Im a * Im a.
Definition Cabs (a : C) : R := sqrt (Cnorm2 a).

Infix "+" := Cadd : C_scope.
Infix "-" := Csub : C_scope.
Infix "*" := Cmul : C_scope.
Infix "/" := Cdiv : C_scope.
Notation "- x" := (Cneg x) : C_scope.

(** ** numpy arrays *)

(** A real array of dimension 0 or 1: what [np.squeeze] makes of the
    documented [(N,)] wavelength input. *)
Inductive ndarray : Type :=
| Arr0 (v : R)
| Arr1 (l : list R).

Inductive carray : Type :=
| CArr0 (z : C)
| CArr1 (l : list C).

(** [np.squeeze(a)]: axes of length one are removed, so a one-element
    vector becomes a 0-d array. *)
Definition squeeze (a : ndarray) : ndarray :=
  match a with
  | Arr1 [v] => Arr0 v
  | _ => a
  end.

(** [a.shape[0]]: the shape of a 0-d array is the empty tuple. *)
Definition shape0 (a : ndarray) : result nat :=
  match a with
  | Arr0 _ => Raise IndexError
  | Arr1 l => Ok (length l)
  end.

(** [len(a)]: a 0-d array is unsized. *)
Definition len (a : ndarray) : result nat :=
  match a with
  | Arr0 _ => Raise TypeError
  | Arr1 l => Ok (length l)
  end.

(** [a.size]. *)
Definition size (a : ndarray) : nat :=
  match a with
  | Arr0 _ => 1
  | Arr1 l => length l
  end.

(** An expression evaluated element by element over a real array. *)
Definition np_map (f : R -> C) (a : ndarray) : carray :=
  match a with
  | Arr0 v => CArr0 (f v)
  | Arr1 l => CArr1 (map f l)
  end.

(** ** S-matrices: arrays of shape (frequencies, ports, ports) *)

Definition matrix : Type := list (list C).

Record smatrix : Type := mkS { nports : nat; slices : list matrix }.

Definition C0 : C := RtoC 0.

(** [np.zeros((N,p,p), dtype='complex128')]. *)
Definition zeros (N p : nat) : smatrix :=
  mkS p (repeat (repeat (repeat C0 p) p) N).

Definition entry (M : matrix) (i j : nat) : C := nth j (nth i M []) C0.

Fixpoint upd {A : Type} (n : nat) (v : A) (l : list A) : list A :=
  match l, n with
  | [], _ => []
  | _ :: t, O => v :: t
  | h :: t, S n' => h :: upd n' v t
  end.

Definition set_entry (i j : nat) (v : C) (M : matrix) : matrix :=
  upd i (upd j v (nth i M [])) M.

Fixpoint map2 {A B D : Type} (f : A -> B -> D) (l : list A) (m : list B) : list D :=
  match l, m with
  | a :: l', b :: m' => f a b :: map2 f l' m'
  | _, _ => []
  end.

(** [S[:,i,j] = x]: the value is broadcast against the frequency axis. *)
Definition setitem (S : smatrix) (i j : nat) (x : carray) : result smatrix :=
  if negb ((i <? nports S) && (j <? nports S)) then Raise IndexError
  else
    match x with
    | CArr0 z => Ok (mkS (nports S) (map (set_entry i j z) (slices S)))
    | CArr1 l =>
        if length l =? length (slices S)
        then Ok (mkS (nports S)
                   (map2 (fun M v => set_entry i j v M) (slices S) l))
        else
          match l with
          | [z] => Ok (mkS (nports S) (map (set_entry i j z) (slices S)))
          | _ => Raise ValueError
          end
    end.

(** ** Bent waveguide *)

Definition bentWaveguide (wavelength : ndarray)
    (radius width thickness gap angle : R) : result smatrix :=
  let neff := 2.323%R in
  N <- shape0 wavelength ;;
  let S := zeros N 2 in
  S <- setitem S 0 1
         (np_map (fun lam : R => Cexp (Ci * 2%R * PI * radius * neff * angle / lam))
            wavelength) ;;
  S <- setitem S 1 0
         (np_map (fun lam : R => Cexp (Ci * 2%R * PI * radius * neff * angle / lam))
            wavelength) ;;
  Ok S.

(** ** Evanescent waveguide coupler *)

Definition coupler_n0 : R := 2.323.
Definition coupler_n1 : R := 2.378022.
Definition coupler_n2 : R := 2.317864.
Definition coupler_dn : R := coupler_n1 - coupler_n2.

(** Line 192: the bar amplitude at one wavelength. *)
Definition coupler_x (couplerLength lam : R) : C :=
  (Cexp (- Ci * 2%R * PI * coupler_n0 * couplerLength / lam)
   * cos (PI * coupler_dn / lam * couplerLength))%C.

(** Line 193: the cross amplitude at one wavelength. *)
Definition coupler_y (couplerLength lam : R) : C :=
  (Ci * Cexp (- Ci * 2%R * PI * coupler_n0 * couplerLength / lam)
   * sin (PI * coupler_dn / lam * couplerLength))%C.

Definition evWGcoupler (wavelength : ndarray)
    (width thickness gap couplerLength : R) : result smatrix :=
  let neff := 2%R in
  N <- shape0 wavelength ;;
  let x := np_map (coupler_x couplerLength) wavelength in
  let y := np_map (coupler_y couplerLength) wavelength in
  let S := zeros N 4 in
  S <- setitem S 0 1 x ;;
  S <- setitem S 0 3 y ;;
  S <- setitem S 1 0 x ;;
  S <- setitem S 1 2 y ;;
  S <- setitem S 2 1 y ;;
  S <- setitem S 2 3 x ;;
  S <- setitem S 3 0 y ;;
  S <- setitem S 3 2 x ;;
  Ok S.

(** ** Helper: generalised N-dimensional products *)

(** A 2-d real array: [ncols] is [shape[1]], [rows] has [shape[0]] rows. *)
Record array2 : Type := mk2 { ncols : nat; rows : list (list R) }.

Fixpoint mapM {A B : Type} (f : A -> result B) (l : list A) : result (list B) :=
  match l with
  | [] => Ok []
  | a :: t => b <- f a ;; bs <- mapM f t ;; Ok (b :: bs)
  end.

Definition prod (dims : list nat) : nat := fold_right Nat.mul 1 dims.

(** Row-major multi-index of the flat position [r] in an array of shape
    [dims] (numpy's C order: the last index moves fastest). *)
Fixpoint unravel (dims : list nat) (r : nat) : list nat :=
  match dims with
  | [] => []
  | _ :: ds => r / prod ds :: unravel ds (r mod prod ds)
  end.

Definition enumerate {A : Type} (l : list A) : list (nat * A) :=
  combine (seq 0 (length l)) l.

Definition mapi {A B : Type} (f : nat -> A -> B) (l : list A) : list B :=
  map (fun p => f (fst p) (snd p)) (enumerate l).

Definition to_list (a : ndarray) : list R :=
  match a with
  | Arr0 v => [v]
  | Arr1 l => l
  end.

(** [arr[..., i] = a] where [a] is the [i]-th open mesh of [np.ix_]: the
    entry in column [i] at the leading multi-index [idx] is [a[idx[i]]].
    [arr] is kept as the table of its rows along the last axis, listed in
    row-major order of the leading axes. *)
Definition assign_mesh (dims : list nat) (i : nat) (a : ndarray)
    (arr : list (list R)) : list (list R) :=
  mapi (fun r row => upd i (nth (nth i (unravel dims r) 0) (to_list a) 0%R) row) arr.

Definition cartesian_product (arrays : list ndarray) : result array2 :=
  let la := length arrays in
  dims <- mapM len arrays ;;
  (* np.empty(dims + [la]) *)
  let arr := repeat (repeat 0%R la) (prod dims) in
  let arr :=
    fold_left (fun arr ia => assign_mesh dims (fst ia) (snd ia) arr)
      (enumerate arrays) arr in
  (* arr.reshape(-1, la): the leading axes merge in row-major order, which
     is the order of the table; the unknown length cannot be inferred when
     la = 0 *)
  if la =? 0 then Raise ValueError else Ok (mk2 la arr).

(** The entry that the loop leaves in row [r], column [i], and row [r]
    after the first [k] passes of the loop. *)
Definition cell (axes : list (list R)) (r i : nat) : R :=
  nth (nth i (unravel (map (@length R) axes) r) 0) (nth i axes []) 0%R.

Definition filled (axes : list (list R)) (k r : nat) : list R :=
  map (fun i => if i <? k then cell axes r i else 0%R) (seq 0 (length axes)).

(** One element per axis, at the positions [idx]. *)
Definition pick (axes : list (list R)) (idx : list nat) : list R :=
  map2 (fun a j => nth j a 0%R) axes idx.

(** The cross product as the specification words it: one row per
    combination, the first axis outermost and the last axis innermost. *)
Fixpoint cross (axes : list (list R)) : list (list R) :=
  match axes with
  | [] => [[]]
  | a :: rest => flat_map (fun v => map (cons v) (cross rest)) a
  end.

(** ** Strip waveguide *)

Definition tensor3 : Type := list (list (list R)).

(** An argument that is either a bare Python number or an ndarray. *)
Inductive pyarg : Type :=
| PyNum (v : R)
| PyArr (a : ndarray).

(** Lines 77-88: [np.squeeze(x)] for an ndarray, [np.array([x])] otherwise. *)
Definition sanitize (x : pyarg) : ndarray :=
  match x with
  | PyArr a => squeeze a
  | PyNum v => Arr1 [v]
  end.

(** [A[:,k]]. *)
Definition column (k : nat) (A : array2) : result (list R) :=
  if k <? ncols A then Ok (map (fun row => nth k row 0%R) (rows A))
  else Raise IndexError.

(** [A[:,k] = v] for a vector [v], broadcast when it has one element. *)
Definition set_column (k : nat) (v : list R) (A : array2) : result array2 :=
  if negb (k <? ncols A) then Raise IndexError
  else if length v =? length (rows A)
  then Ok (mk2 (ncols A) (map2 (fun row x => upd k x row) (rows A) v))
  else
    match v with
    | [x] => Ok (mk2 (ncols A) (map (upd k x) (rows A)))
    | _ => Raise ValueError
    end.

(** Consecutive blocks of [n] elements, [count] of them. *)
Fixpoint chunks {A : Type} (n count : nat) (l : list A) : list (list A) :=
  match count with
  | O => []
  | S c => firstn n l :: chunks n c (skipn n l)
  end.

(** [np.reshape(v, (a,b,c))] of a vector, in C order. *)
Definition reshape3 (v : list R) (shape : nat * nat * nat) : result tensor3 :=
  let '(a, b, c) := shape in
  if length v =? a * b * c
  then Ok (map (chunks c b) (chunks (b * c) a v))
  else Raise ValueError.

(** Flattening a 3-d tensor in C order ([tensor.ravel()]): plane after
    plane, line after line. *)
Definition ravel (t : tensor3) : list R := concat (map (@concat R) t).

Definition shape3 (t : tensor3) (shape : nat * nat * nat) : Prop :=
  let '(a, b, c) := shape in
  length t = a /\
  Forall (fun plane => length plane = b /\
                       Forall (fun line => length line = c) plane) t.

(** The input grid of the strip waveguide: wavelength x width x thickness. *)
Definition grid (wl wd th : list R) : array2 := mk2 3 (cross [wl; wd; th]).

Section StripWaveguide.

(** The trained network [ANN_straightReal] of [SiPANN.import_nn], which
    is loaded from a file: [output] maps a batch of input rows to a batch
    of output rows, [differentiate] returns one derivative per row for
    the output [k] with respect to the input [j], of the given order. *)
Variable ANN_output : array2 -> array2.
Variable ANN_differentiate : array2 -> nat * nat * nat -> list R.

Definition derivative_output (INPUT : array2) (derivative : nat) : result array2 :=
  let numRows := length (rows INPUT) in
  fold_left
    (fun OUTPUT k =>
       OUTPUT <- OUTPUT ;;
       set_column k (ANN_differentiate INPUT (k, 0, derivative)) OUTPUT)
    (seq 0 6)
    (Ok (mk2 6 (repeat (repeat 0%R 6) numRows))).

Definition straightWaveguide (wavelength width thickness : pyarg)
    (derivative : option nat)
  : result (tensor3 * tensor3 * tensor3 * tensor3 * tensor3 * tensor3) :=
  let wavelength := sanitize wavelength in
  let width := sanitize width in
  let thickness := sanitize thickness in
  INPUT <- cartesian_product [wavelength; width; thickness] ;;
  OUTPUT <- match derivative with
            | None => Ok (ANN_output INPUT)
            | Some d => derivative_output INPUT d
            end ;;
  let tensorSize := (size wavelength, size width, size thickness) in
  c0 <- column 0 OUTPUT ;; TE0 <- reshape3 c0 tensorSize ;;
  c1 <- column 1 OUTPUT ;; TE1 <- reshape3 c1 tensorSize ;;
  c2 <- column 2 OUTPUT ;; TE2 <- reshape3 c2 tensorSize ;;
  c3 <- column 3 OUTPUT ;; TM0 <- reshape3 c3 tensorSize ;;
  c4 <- column 4 OUTPUT ;; TM1 <- reshape3 c4 tensorSize ;;
  c5 <- column 5 OUTPUT ;; TM2 <- reshape3 c5 tensorSize ;;
  Ok (TE0, TE1, TE2, TM0, TM1, TM2).

(** *** Name resolution in [straightWaveguide_S] *)

(** The names bound at module level when a function of the module runs:
    the imports, the two file names, the two networks and the functions. *)
Definition module_globals : list string :=
  [ "import_nn"; "np"; "rf"; "pkg_resources";
    "gapReal_FILE"; "ANN_gapReal"; "straightReal_FILE"; "ANN_straightReal";
    "cartesian_product"; "straightWaveguide"; "straightWaveguide_S";
    "bentWaveguide"; "evWGcoupler"; "racetrackRR"; "rectangularRR" ]%string.

Inductive pyval : Type :=
| VNum (v : R)
| VObj (name : string).

(** A name that the function body never assigns is read from the module;
    none of the module's globals is a number. *)
Definition load_global (name : string) : result pyval :=
  if existsb (String.eqb name) module_globals then Ok (VObj name)
  else Raise NameError.

(** Use of a value as a factor of a complex product. *)
Definition as_number (v : pyval) : result R :=
  match v with
  | VNum r => Ok r
  | VObj _ => Raise TypeError
  end.

(** [t / wavelength] and the like: broadcasting of the last axis of a
    tensor against a vector. *)
Definition broadcast_last (f : R -> R -> C) (line wl : list R) : result (list C) :=
  if length line =? length wl then Ok (map2 f line wl)
  else
    match line, wl with
    | [v], _ => Ok (map (f v) wl)
    | _, [w] => Ok (map (fun v => f v w) line)
    | _, _ => Raise ValueError
    end.

(** [S[:,i,j] = value] for a 3-d value: only leading axes of length one
    can be dropped to fit the frequency axis. *)
Definition setitem3 (S : smatrix) (i j : nat) (value : list (list (list C)))
  : result smatrix :=
  match value with
  | [[line]] => setitem S i j (CArr1 line)
  | _ => Raise ValueError
  end.

Definition straightWaveguide_S (wavelength : ndarray)
    (width thickness gap length : R) : result smatrix :=
  '(TE0, TE1, TE2, TM0, TM1, TM2) <-
    straightWaveguide (PyArr wavelength) (PyNum width) (PyNum thickness) None ;;
  let neff := TE0 in
  N <- shape0 wavelength ;;
  let S := zeros N 2 in
  (* line 121 *)
  radius <- (v <- load_global "radius" ;; as_number v) ;;
  angle <- (v <- load_global "angle" ;; as_number v) ;;
  value <- mapM (mapM (fun line =>
             broadcast_last
               (fun n lam : R => Cexp (Ci * 2%R * PI * radius * n * angle / lam))
               line (to_list wavelength))) neff ;;
  S <- setitem3 S 0 1 value ;;
  (* line 122 *)
  radius <- (v <- load_global "radius" ;; as_number v) ;;
  angle <- (v <- load_global "angle" ;; as_number v) ;;
  value <- mapM (mapM (fun line =>
             broadcast_last
               (fun n lam : R => Cexp (Ci * 2%R * PI * radius * n * angle / lam))
               line (to_list wavelength))) neff ;;
  S <- setitem3 S 1 0 value ;;
  Ok S.

(** The flat column [k] that [straightWaveguide] reshapes: a column of
    the network's output, or the derivative of output [k]. *)
Definition predicted (INPUT : array2) (derivative : option nat) (k : nat) : list R :=
  match derivative with
  | None => map (fun row => nth k row 0%R) (rows (ANN_output INPUT))
  | Some d => ANN_differentiate INPUT (k, 0, d)
  end.

(** The contract of the network on one batch: one output row per input
    row and at least the six columns that are read, respectively one
    derivative per input row for each of the six outputs. *)
Definition answers (INPUT : array2) (derivative : option nat) : Prop :=
  match derivative with
  | None =>
      6 <= ncols (ANN_output INPUT) /\
      List.length (rows (ANN_output INPUT)) = List.length (rows INPUT)
  | Some d =>
      forall k, k < 6 ->
        List.length (ANN_differentiate INPUT (k, 0, d)) = List.length (rows INPUT)
  end.

End StripWaveguide.

(** ** Network cascading (scikit-rf) *)

Module Skrf.

(** Modelled from the spec: removal of the two joined ports from one axis,
    the remaining ports keeping their relative order. *)
Definition delete2 {A : Type} (k l : nat) (v : list A) : list A :=
  map snd (filter (fun p => negb ((fst p =? k) || (fst p =? l))) (enumerate v)).

(** Modelled from the spec: the cascading formula of section 4.4, which
    the repository takes from the scikit-rf package and which is not
    among its sources.  It is the standard closed form for joining the
    ports [k] and [l] of one network: every remaining pair of ports gets
    its direct term plus the paths through the joined pair, divided by
    the loop determinant, so that all round trips are summed. *)
Definition innerconnect_entry (A : matrix) (k l i j : nat) : C :=
  (entry A i j
   + (entry A k j * entry A i l * (1%R - entry A l k)
      + entry A l j * entry A i k * (1%R - entry A k l)
      + entry A k j * entry A l l * entry A i k
      + entry A l j * entry A k k * entry A i l)
     / ((1%R - entry A k l) * (1%R - entry A l k) - entry A k k * entry A l l))%C.

(** Modelled from the spec: one frequency point of [innerconnect]; the
    two joined ports are removed and the others keep their order. *)
Definition innerconnect_slice (n k l : nat) (A : matrix) : matrix :=
  delete2 k l
    (map (fun i => delete2 k l (map (fun j => innerconnect_entry A k l i j) (seq 0 n)))
       (seq 0 n)).

(** Modelled from the spec: [innerconnect(matrix, portI, portJ)] of
    section 4.4, applied at every frequency point independently; a port
    index out of range, or twice the same port, is an error. *)
Definition innerconnect_s (A : smatrix) (k l : nat) : result smatrix :=
  if (nports A <=? k) || (nports A <=? l) || (k =? l)
  then Raise PortIndexOutOfRange
  else
    Ok (mkS (length (delete2 k l (seq 0 (nports A))))
          (map (innerconnect_slice (nports A) k l) (slices A))).

(** Modelled from the spec: the composite of two networks before any
    port is joined, the ports of A followed by the ports of B, with no
    coupling between the two. *)
Definition block_diag (nA nB : nat) (A B : matrix) : matrix :=
  map (fun row => row ++ repeat C0 nB) A ++ map (fun row => repeat C0 nA ++ row) B.

(** Modelled from the spec: [connect(matrixA, portA, matrixB, portB)] of
    section 4.4: the ports of A followed by the ports of B, then port
    [k] of A joined to port [l] of B; the frequency counts must agree. *)
Definition connect_s (A : smatrix) (k : nat) (B : smatrix) (l : nat) : result smatrix :=
  if (nports A <=? k) || (nports B <=? l) then Raise PortIndexOutOfRange
  else if negb (length (slices A) =? length (slices B)) then Raise DimensionMismatch
  else
    innerconnect_s
      (mkS (nports A + nports B)
         (map2 (block_diag (nports A) (nports B)) (slices A) (slices B)))
      k (nports A + l).

End Skrf.

(** ** Racetrack ring resonator *)

Section RacetrackRR.

(** [rf.connect_s] and [rf.innerconnect_s]. *)
Variable connect_s : smatrix -> nat -> smatrix -> nat -> result smatrix.
Variable innerconnect_s : smatrix -> nat -> nat -> result smatrix.

Definition racetrackRR (wavelength : ndarray)
    (radius couplerLength gap width thickness : R) : result smatrix :=
  let wavelength := squeeze wavelength in
  N <- shape0 wavelength ;;
  couplerS <- evWGcoupler wavelength width thickness gap couplerLength ;;
  bentS <- bentWaveguide wavelength radius width thickness gap PI ;;
  S <- connect_s couplerS 2 bentS 0 ;;
  S <- connect_s S 3 bentS 0 ;;
  S <- connect_s S 2 couplerS 0 ;;
  S <- innerconnect_s S 2 3 ;;
  Ok S.

End RacetrackRR.

(** ** Rectangular ring resonator *)

(** The body of [rectangularRR] is empty: the function returns [None]. *)
Definition rectangularRR (wavelength : ndarray)
    (radius couplerLength sideLength gap width thickness : R) : result unit :=
  Ok tt.

(** The default geometry of [racetrackRR]. *)
Definition default_radius : R := 5.
Definition default_couplerLength : R := 5.
Definition default_gap : R := 0.2.
Definition default_width : R := 0.5.
Definition default_thickness : R := 0.2.

(** ** Shapes and symmetry of S-matrices *)

Definition square (p : nat) (M : matrix) : Prop :=
  length M = p /\ Forall (fun row => length row = p) M.

(** [S.shape == (N, p, p)]. *)
Definition has_shape (S : smatrix) (N p : nat) : Prop :=
  length (slices S) = N /\ nports S = p /\ Forall (square p) (slices S).

(** [S[f,i,j]]. *)
Definition item (S : smatrix) (f i j : nat) : C := entry (nth f (slices S) []) i j.

(** ** Closed forms of the primitive matrices *)

(** The 4-port coupler at one frequency, bar amplitude [x], cross
    amplitude [y]. *)
Definition coupler_slice (x y : C) : matrix :=
  [ [C0; x; C0; y];
    [x; C0; y; C0];
    [C0; y; C0; x];
    [y; C0; x; C0] ].

(** The 2-port waveguide at one frequency, transmission [b]. *)
Definition bend_slice (b : C) : matrix :=
  [ [C0; b];
    [b; C0] ].

(** exp(i*theta) for a real phase. *)
Definition phasor (theta : R) : C := Cexp (mkC 0 theta).

(** The amplitudes of the coupler as the specification writes them. *)
Definition bar_amplitude (n0 dn couplerLength lam : R) : C :=
  (phasor (- (2 * PI * n0 * couplerLength / lam))
   * cos (PI * dn * couplerLength / lam))%C.

Definition cross_amplitude (n0 dn couplerLength lam : R) : C :=
  (Ci * (phasor (- (2 * PI * n0 * couplerLength / lam))
         * sin (PI * dn * couplerLength / lam)))%C.

(** The transmission of a bend as the specification writes it. *)
Definition bend_transmission (neff radius angle lam : R) : C :=
  phasor (2 * PI * radius * neff * angle / lam).

(** ** The stages of the racetrack cascade at one frequency *)

(** The coupler with one bend on its port 2: ports a0, a1, a3 and the far
    end of the bend. *)
Definition stage1 (x y b : C) : matrix :=
  [ [C0; x; y; C0];
    [x; C0; C0; y * b];
    [y; C0; C0; x * b];
    [C0; y * b; x * b; C0] ]%C.

(** A second bend in series with the first. *)
Definition stage2 (x y b : C) : matrix := stage1 x y (b * b)%C.

(** Port a3 joined to port 0 of a second copy of the coupler: ports a0,
    a1, the far end of the bends, and c1, c2, c3 of the copy. *)
Definition stage3 (x y b : C) : matrix :=
  [ [C0; x; C0; y * x; C0; y * y];
    [x; C0; y * (b * b); C0; C0; C0];
    [C0; y * (b * b); C0; x * (b * b) * x; C0; x * (b * b) * y];
    [y * x; C0; x * (b * b) * x; C0; y; C0];
    [C0; C0; C0; y; C0; x];
    [y * y; C0; x * (b * b) * y; C0; x; C0] ]%C.

(** The denominator of the cascading formula when the ports [k] and [l]
    of [A] are joined. *)
Definition loop_determinant (A : matrix) (k l : nat) : C :=
  ((1%R - entry A k l) * (1%R - entry A l k) - entry A k k * entry A l l)%C.

(** The ring: the far end of the bends joined to port c1. *)
Definition ring_slice (x y b : C) : matrix :=
  Skrf.innerconnect_slice 6 2 3 (stage3 x y b).

(** The amplitude gained over one round trip of the closed loop; the
    closing step divides by (1 - round_trip)^2. *)
Definition round_trip (radius couplerLength lam : R) : C :=
  (coupler_x couplerLength lam
   * (bend_transmission 2.323 radius PI lam * bend_transmission 2.323 radius PI lam)
   * coupler_x couplerLength lam)%C.

(** A frequency point at which the cascade divides by no zero: the
    wavelength is not zero and the loop is not exactly on resonance. *)
Definition regular_point (radius couplerLength lam : R) : Prop :=
  lam <> 0%R /\ round_trip radius couplerLength lam <> RtoC 1.

(** ** Notions for the further properties *)

(** The complex conjugate. *)
Definition Cconj (a : C) : C := mkC (Re a) (- Im a).

Definition Csum (l : list C) : C := fold_right Cadd C0 l.

(** Entry (i,j) of the product of the conjugate transpose of [M] with [M],
    for a matrix with [n] ports. *)
Definition gram (n : nat) (M : matrix) (i j : nat) : C :=
  Csum (map (fun k => (Cconj (entry M k i) * entry M k j)%C) (seq 0 n)).

(** A lossless network: the conjugate transpose is the inverse. *)
Definition unitary (n : nat) (M : matrix) : Prop :=
  forall i j, i < n -> j < n ->
    gram n M i j = if i =? j then RtoC 1 else C0.

(** A reciprocal network. *)
Definition symmetric (M : matrix) : Prop :=
  forall i j, entry M i j = entry M j i.

(** The number of rows after which axis [i] of a grid of shape [dims]
    moves to its next element. *)
Definition stride (dims : list nat) (i : nat) : nat := prod (skipn (S i) dims).

(** [t[i,j,k]]. *)
Definition tensor_item (t : tensor3) (i j k : nat) : R :=
  nth k (nth j (nth i t []) []) 0%R.

(** A 1-d array. *)
Definition vector (a : ndarray) : Prop := exists l, a = Arr1 l.

(** An argument that is an ndarray holding a single number, as a vector
    of one element or as a 0-d array. *)
Definition one_point (x : pyarg) : Prop :=
  exists v, x = PyArr (Arr1 [v]) \/ x = PyArr (Arr0 v).

(** * Properties *)

(** ** Complex arithmetic *)

Lemma C_eq (a b : C) : Re a = Re b -> Im a = Im b -> a = b.
Proof. destruct a, b; simpl; intros -> ->; reflexivity. Qed.

(** Dividing by a real number divides both parts; with Rocq's [/ 0 = 0]
    this holds at zero too. *)
Lemma Cdiv_real (z : C) (r : R) : (z / r)%C = mkC (Re z / r) (Im z / r).
Proof.
  destruct (Req_dec r 0) as [-> | Hr].
  - apply C_eq; simpl; unfold Rdiv; rewrite ?Rinv_0; ring.
  - apply C_eq; simpl; field; nra.
Qed.

Lemma phasor_parts (theta : R) : phasor theta = mkC (cos theta) (sin theta).
Proof. unfold phasor, Cexp; simpl. rewrite exp_0, !Rmult_1_l. reflexivity. Qed.

Lemma cos2_sin2 (t : R) : (cos t * cos t + sin t * sin t = 1)%R.
Proof. pose proof (sin2_cos2 t) as H. unfold Rsqr in H. lra. Qed.

Lemma Cnorm2_phasor (theta : R) : Cnorm2 (phasor theta) = 1%R.
Proof. rewrite phasor_parts. unfold Cnorm2; simpl. apply cos2_sin2. Qed.

(** ** Arrays *)

Lemma repeat_as_map {A B : Type} (v : B) (l : list A) :
  repeat v (length l) = map (fun _ => v) l.
Proof. induction l; simpl; congruence. Qed.

Lemma map2_map {A B D E : Type} (f : B -> D -> E) (g : A -> B) (h : A -> D)
    (l : list A) :
  map2 f (map g l) (map h l) = map (fun a => f (g a) (h a)) l.
Proof. induction l; simpl; congruence. Qed.

Lemma setitem_map (p i j : nat) (F : R -> matrix) (G : R -> C) (l : list R) :
  i < p -> j < p ->
  setitem (mkS p (map F l)) i j (CArr1 (map G l))
  = Ok (mkS p (map (fun a => set_entry i j (G a) (F a)) l)).
Proof.
  intros Hi Hj. unfold setitem; simpl.
  apply Nat.ltb_lt in Hi, Hj. rewrite Hi, Hj; simpl.
  rewrite !length_map, Nat.eqb_refl. rewrite map2_map. reflexivity.
Qed.

(** ** The primitive matrices in closed form *)

(** The phase of the coupler's common factor (line 192). *)
Lemma coupler_phase (L lam : R) :
  Cexp (- Ci * 2%R * PI * coupler_n0 * L / lam)
  = phasor (- (2 * PI * coupler_n0 * L / lam)).
Proof.
  unfold phasor. f_equal. rewrite Cdiv_real.
  apply C_eq; simpl; unfold Rdiv; ring.
Qed.

Lemma coupler_x_spec (L lam : R) :
  coupler_x L lam = bar_amplitude coupler_n0 coupler_dn L lam.
Proof.
  unfold coupler_x, bar_amplitude. rewrite coupler_phase.
  do 3 f_equal. unfold Rdiv; ring.
Qed.

Lemma coupler_y_spec (L lam : R) :
  coupler_y L lam = cross_amplitude coupler_n0 coupler_dn L lam.
Proof.
  unfold coupler_y, cross_amplitude. rewrite coupler_phase.
  replace (PI * coupler_dn / lam * L)%R with (PI * coupler_dn * L / lam)%R
    by (unfold Rdiv; ring).
  apply C_eq; simpl; ring.
Qed.

Lemma bend_phase (r n a lam : R) :
  Cexp (Ci * 2%R * PI * r * n * a / lam) = bend_transmission n r a lam.
Proof.
  unfold bend_transmission, phasor. f_equal. rewrite Cdiv_real.
  apply C_eq; simpl; unfold Rdiv; ring.
Qed.

Lemma evWGcoupler_closed (l : list R) (w t g L : R) :
  evWGcoupler (Arr1 l) w t g L
  = Ok (mkS 4 (map (fun lam => coupler_slice (coupler_x L lam) (coupler_y L lam)) l)).
Proof.
  unfold evWGcoupler, zeros; simpl shape0; simpl np_map; cbv beta iota delta [bind].
  rewrite repeat_as_map.
  repeat (rewrite setitem_map by lia).
  reflexivity.
Qed.

Lemma bentWaveguide_closed (l : list R) (r w t g a : R) :
  bentWaveguide (Arr1 l) r w t g a
  = Ok (mkS 2 (map (fun lam => bend_slice (bend_transmission 2.323 r a lam)) l)).
Proof.
  unfold bentWaveguide, zeros; simpl shape0; simpl np_map; cbv beta iota zeta delta [bind].
  rewrite repeat_as_map.
  repeat (rewrite setitem_map by lia).
  do 2 f_equal. apply map_ext; intros lam. rewrite <- bend_phase. reflexivity.
Qed.

Lemma has_shape_map (p : nat) (F : R -> matrix) (l : list R) :
  (forall lam, square p (F lam)) ->
  has_shape (mkS p (map F l)) (length l) p.
Proof.
  intros HF. unfold has_shape; simpl. rewrite length_map.
  repeat split. apply Forall_forall. intros M HM.
  apply in_map_iff in HM. destruct HM as [lam [<- _]]. apply HF.
Qed.

Lemma square_coupler (x y : C) : square 4 (coupler_slice x y).
Proof. split; [reflexivity | repeat constructor]. Qed.

Lemma square_bend (b : C) : square 2 (bend_slice b).
Proof. split; [reflexivity | repeat constructor]. Qed.

Lemma item_map (p : nat) (F : R -> matrix) (l : list R) (f i j : nat) :
  f < length l ->
  item (mkS p (map F l)) f i j = entry (F (nth f l 0%R)) i j.
Proof.
  intros Hf. unfold item; simpl.
  rewrite (nth_indep _ [] (F 0%R)) by (rewrite length_map; exact Hf).
  rewrite map_nth. reflexivity.
Qed.

Lemma nth_empty {A : Type} (n : nat) (d : A) : nth n [] d = d.
Proof. destruct n; reflexivity. Qed.

Ltac by_cases_on_ports i j :=
  unfold entry;
  destruct i as [|[|[|[|i]]]]; destruct j as [|[|[|[|j]]]];
  simpl; try reflexivity;
  try (destruct i; reflexivity); try (destruct j; reflexivity);
  destruct i, j; reflexivity.

Lemma coupler_slice_symmetric (x y : C) (i j : nat) :
  entry (coupler_slice x y) i j = entry (coupler_slice x y) j i.
Proof. by_cases_on_ports i j. Qed.

Lemma coupler_slice_diagonal (x y : C) (i : nat) :
  entry (coupler_slice x y) i i = C0.
Proof.
  unfold entry. destruct i as [|[|[|[|i]]]]; simpl; try reflexivity.
  destruct i; reflexivity.
Qed.

(** ** The evanescent coupler *)

(** C2.  For a wavelength array of length N, [evWGcoupler] returns an
    (N,4,4) matrix; at every frequency point the entries (0,1), (1,0),
    (2,3), (3,2) are the bar amplitude x and (0,3), (3,0), (1,2), (2,1)
    the cross amplitude y of the specification, every other entry is
    zero, the matrix is symmetric and its diagonal is zero. *)
Theorem evWGcoupler_matrix (wavelength : list R)
    (width thickness gap couplerLength : R) :
  exists S,
    evWGcoupler (Arr1 wavelength) width thickness gap couplerLength = Ok S /\
    has_shape S (length wavelength) 4 /\
    forall f, f < length wavelength ->
      let lam := nth f wavelength 0%R in
      let x := bar_amplitude coupler_n0 (coupler_n1 - coupler_n2) couplerLength lam in
      let y := cross_amplitude coupler_n0 (coupler_n1 - coupler_n2) couplerLength lam in
      (item S f 0 1 = x /\ item S f 1 0 = x /\ item S f 2 3 = x /\ item S f 3 2 = x) /\
      (item S f 0 3 = y /\ item S f 3 0 = y /\ item S f 1 2 = y /\ item S f 2 1 = y) /\
      nth f (slices S) [] = coupler_slice x y /\
      (forall i j, item S f i j = item S f j i) /\
      (forall i, item S f i i = C0).
Proof.
  eexists. split; [apply evWGcoupler_closed|].
  split; [apply has_shape_map; intros; apply square_coupler|].
  intros f Hf lam x y.
  assert (Hx : coupler_x couplerLength lam = x) by apply coupler_x_spec.
  assert (Hy : coupler_y couplerLength lam = y) by apply coupler_y_spec.
  rewrite !item_map by exact Hf. fold lam. rewrite Hx, Hy.
  repeat split; try reflexivity.
  - simpl. rewrite (nth_indep _ [] (coupler_slice (coupler_x couplerLength 0%R)
                                      (coupler_y couplerLength 0%R)))
      by (rewrite length_map; exact Hf).
    rewrite (map_nth (fun lam => coupler_slice (coupler_x couplerLength lam)
                                   (coupler_y couplerLength lam))).
    fold lam. rewrite Hx, Hy. reflexivity.
  - intros i j. rewrite !item_map by exact Hf. apply coupler_slice_symmetric.
  - intros i. rewrite !item_map by exact Hf. apply coupler_slice_diagonal.
Qed.

(** C3.  At every non-zero wavelength the bar and cross amplitudes of
    [evWGcoupler] (lines 192 and 193) satisfy |x|^2 + |y|^2 = 1 for every
    coupler length, and for a coupler of length 0 they are x = 1 and
    y = 0.  (At wavelength zero numpy divides by zero.) *)
Theorem coupler_amplitudes_lossless (couplerLength lam : R) :
  lam <> 0%R ->
  (Cnorm2 (coupler_x couplerLength lam) + Cnorm2 (coupler_y couplerLength lam) = 1)%R /\
  coupler_x 0 lam = RtoC 1 /\
  coupler_y 0 lam = RtoC 0.
Proof.
  intros _. split; [|split].
  - rewrite coupler_x_spec, coupler_y_spec.
    unfold bar_amplitude, cross_amplitude. rewrite phasor_parts.
    unfold Cnorm2; simpl.
    set (t := (- (2 * PI * coupler_n0 * couplerLength / lam))%R).
    set (u := (PI * coupler_dn * couplerLength / lam)%R).
    pose proof (cos2_sin2 t) as Ht. pose proof (cos2_sin2 u) as Hu.
    replace (_ + _)%R
      with ((cos t * cos t + sin t * sin t) * (cos u * cos u + sin u * sin u))%R
      by ring.
    rewrite Ht, Hu. ring.
  - rewrite coupler_x_spec. unfold bar_amplitude. rewrite phasor_parts.
    replace (- (2 * PI * coupler_n0 * 0 / lam))%R with 0%R by (unfold Rdiv; ring).
    replace (PI * coupler_dn * 0 / lam)%R with 0%R by (unfold Rdiv; ring).
    rewrite cos_0, sin_0. apply C_eq; simpl; ring.
  - rewrite coupler_y_spec. unfold cross_amplitude. rewrite phasor_parts.
    replace (- (2 * PI * coupler_n0 * 0 / lam))%R with 0%R by (unfold Rdiv; ring).
    replace (PI * coupler_dn * 0 / lam)%R with 0%R by (unfold Rdiv; ring).
    rewrite cos_0, sin_0. apply C_eq; simpl; ring.
Qed.

Lemma coupler_amplitudes_lossless_witness :
  (1.55 <> 0)%R /\
  ((Cnorm2 (coupler_x 5 1.55) + Cnorm2 (coupler_y 5 1.55) = 1)%R /\
   coupler_x 0 1.55 = RtoC 1 /\
   coupler_y 0 1.55 = RtoC 0).
Proof.
  split; [lra | apply (coupler_amplitudes_lossless 5 1.55); lra].
Defined.

(** ** The bent waveguide *)

(** C4.  For a wavelength array of length N, [bentWaveguide] returns an
    (N,2,2) matrix whose two off-diagonal entries at the frequency point f
    are exp(i*2*pi*radius*neff*angle/wavelength[f]) for the constant
    effective index 2.323, and whose diagonal entries are zero. *)
Theorem bentWaveguide_matrix (wavelength : list R)
    (radius width thickness gap angle : R) :
  exists S,
    bentWaveguide (Arr1 wavelength) radius width thickness gap angle = Ok S /\
    has_shape S (length wavelength) 2 /\
    forall f, f < length wavelength ->
      let b := phasor (2 * PI * radius * 2.323 * angle / nth f wavelength 0%R) in
      item S f 0 1 = b /\ item S f 1 0 = b /\
      item S f 0 0 = C0 /\ item S f 1 1 = C0.
Proof.
  eexists. split; [apply bentWaveguide_closed|].
  split; [apply has_shape_map; intros; apply square_bend|].
  intros f Hf b. rewrite !item_map by exact Hf.
  repeat split; reflexivity.
Qed.

(** C10.  Two runs of [bentWaveguide], or of [evWGcoupler], that differ
    only in width, thickness and gap give the same result: the effective
    indices are constants, so the matrices depend on the wavelength, the
    radius and the angle, respectively on the wavelength and the coupler
    length, alone. *)
Theorem primitives_ignore_cross_section (wavelength : ndarray)
    (radius angle couplerLength : R)
    (width thickness gap width' thickness' gap' : R) :
  bentWaveguide wavelength radius width thickness gap angle
  = bentWaveguide wavelength radius width' thickness' gap' angle /\
  evWGcoupler wavelength width thickness gap couplerLength
  = evWGcoupler wavelength width' thickness' gap' couplerLength.
Proof. split; reflexivity. Qed.

(** ** The cartesian product *)

Example unravel_2_3 :
  map (unravel [2; 3]) (seq 0 6) = [[0; 0]; [0; 1]; [0; 2]; [1; 0]; [1; 1]; [1; 2]].
Proof. reflexivity. Qed.

Example cartesian_product_2_3 :
  cartesian_product [Arr1 [1; 2]%R; Arr1 [3; 4; 5]%R]
  = Ok (mk2 2 [[1; 3]; [1; 4]; [1; 5]; [2; 3]; [2; 4]; [2; 5]]%R).
Proof. reflexivity. Qed.

(** A 0-d array has no length. *)
Example cartesian_product_unsized :
  cartesian_product [Arr0 1.55%R; Arr1 [0.5]%R; Arr1 [0.2]%R] = Raise TypeError.
Proof. reflexivity. Qed.

Lemma mapM_len (axes : list (list R)) :
  mapM len (map Arr1 axes) = Ok (map (@length R) axes).
Proof.
  induction axes as [|a axes IH]; simpl; [reflexivity|].
  rewrite IH. reflexivity.
Qed.

Lemma combine_self_map {A B : Type} (g : A -> B) (s : list A) :
  combine s (map g s) = map (fun r => (r, g r)) s.
Proof. induction s; simpl; congruence. Qed.

Lemma mapi_map_seq {B D : Type} (f : nat -> B -> D) (g : nat -> B) (n : nat) :
  mapi f (map g (seq 0 n)) = map (fun r => f r (g r)) (seq 0 n).
Proof.
  unfold mapi, enumerate. rewrite length_map, length_seq.
  rewrite combine_self_map, map_map. reflexivity.
Qed.

Lemma upd_map_seq {A : Type} (h : nat -> A) (v : A) (n : nat) :
  forall k s, k < n ->
    upd k v (map h (seq s n))
    = map (fun i => if i =? s + k then v else h i) (seq s n).
Proof.
  induction n as [|n IH]; intros k s Hk; [lia|].
  destruct k as [|k]; simpl.
  - rewrite Nat.add_0_r, Nat.eqb_refl. f_equal.
    apply map_ext_in. intros i Hi. apply in_seq in Hi.
    destruct (Nat.eqb_spec i s); [lia | reflexivity].
  - destruct (Nat.eqb_spec s (s + S k)); [lia|]. f_equal.
    rewrite IH by lia. apply map_ext. intros i.
    replace (S s + k) with (s + S k) by lia. reflexivity.
Qed.

Section CartesianProduct.

Variable axes : list (list R).

Lemma filled_0 (r : nat) : filled axes 0 r = repeat 0%R (length axes).
Proof.
  pose proof (repeat_as_map 0%R (seq 0 (length axes))) as H.
  rewrite length_seq in H. rewrite H. reflexivity.
Qed.

Lemma assign_mesh_step (k : nat) :
  k < length axes ->
  assign_mesh (map (@length R) axes) k (Arr1 (nth k axes [])) (map (filled axes k) (seq 0 (prod (map (@length R) axes))))
  = map (filled axes (S k)) (seq 0 (prod (map (@length R) axes))).
Proof.
  intros Hk. unfold assign_mesh. rewrite mapi_map_seq.
  apply map_ext. intros r. unfold filled.
  rewrite upd_map_seq by exact Hk. apply map_ext. intros i. simpl.
  destruct (Nat.eqb_spec i k) as [-> | Hne].
  - destruct (Nat.ltb_spec k (S k)); [reflexivity | lia].
  - destruct (Nat.ltb_spec i k), (Nat.ltb_spec i (S k)); try reflexivity; lia.
Qed.

Lemma assign_mesh_loop (rest : list (list R)) :
  forall pre, axes = pre ++ rest ->
    fold_left (fun arr ia => assign_mesh (map (@length R) axes) (fst ia) (snd ia) arr)
      (combine (seq (length pre) (length rest)) (map Arr1 rest))
      (map (filled axes (length pre)) (seq 0 (prod (map (@length R) axes))))
    = map (filled axes (length axes)) (seq 0 (prod (map (@length R) axes))).
Proof.
  induction rest as [|a rest IH]; intros pre Hax.
  - simpl. rewrite Hax, app_nil_r. reflexivity.
  - simpl.
    assert (Ha : a = nth (length pre) axes []) by (rewrite Hax, nth_middle; reflexivity).
    rewrite Ha at 1. rewrite assign_mesh_step
      by (rewrite Hax, length_app; simpl; lia).
    specialize (IH (pre ++ [a])).
    rewrite length_app in IH; simpl in IH. rewrite Nat.add_1_r in IH.
    apply IH. rewrite <- app_assoc. exact Hax.
Qed.

End CartesianProduct.

Lemma length_unravel (dims : list nat) :
  forall r, length (unravel dims r) = length dims.
Proof. induction dims; intros r; simpl; congruence. Qed.

(** A complete row is the choice of one element per axis. *)
Lemma filled_all (axes : list (list R)) (r : nat) :
  filled axes (length axes) r = pick axes (unravel (map (@length R) axes) r).
Proof.
  unfold filled, cell.
  transitivity (map (fun i => nth (nth i (unravel (map (@length R) axes) r) 0)
                                (nth i axes []) 0%R) (seq 0 (length axes))).
  { apply map_ext_in. intros i Hi. apply in_seq in Hi.
    destruct (Nat.ltb_spec i (length axes)); [reflexivity | lia]. }
  generalize (unravel (map (@length R) axes) r)
    (length_unravel (map (@length R) axes) r).
  rewrite length_map.
  induction axes as [|a rest IH]; intros idx Hidx.
  - reflexivity.
  - destruct idx as [|j idx]; [discriminate|].
    change (pick (a :: rest) (j :: idx)) with (nth j a 0%R :: pick rest idx).
    simpl. f_equal. rewrite <- seq_shift, map_map. apply IH.
    simpl in Hidx. congruence.
Qed.

Lemma seq_from (a m : nat) : seq a m = map (Nat.add a) (seq 0 m).
Proof.
  revert a. induction m as [|m IH]; intros a; simpl; [reflexivity|].
  rewrite Nat.add_0_r. f_equal.
  rewrite (IH (S a)), (IH 1), map_map. apply map_ext. intros s. lia.
Qed.

(** The flat positions of a [d] by [m] grid, block after block. *)
Lemma map_seq_mul {A : Type} (f : nat -> A) (d m : nat) :
  map f (seq 0 (d * m))
  = flat_map (fun q => map (fun s => f (q * m + s)) (seq 0 m)) (seq 0 d).
Proof.
  induction d as [|d IH].
  - reflexivity.
  - rewrite seq_S, flat_map_app. simpl flat_map. rewrite app_nil_r.
    replace (S d * m) with (d * m + m) by lia.
    rewrite seq_app, map_app, IH. f_equal.
    simpl. rewrite (seq_from (d * m) m), map_map. reflexivity.
Qed.

Lemma list_from_nth {A : Type} (d : A) (a : list A) :
  map (fun q => nth q a d) (seq 0 (length a)) = a.
Proof.
  induction a as [|v a IH]; simpl; [reflexivity|].
  f_equal. rewrite <- seq_shift, map_map. exact IH.
Qed.

Lemma flat_map_map {A B D : Type} (g : B -> list D) (h : A -> B) (s : list A) :
  flat_map g (map h s) = flat_map (fun v => g (h v)) s.
Proof. induction s; simpl; congruence. Qed.

(** Reading the rows in row-major order of the index grid enumerates the
    cross product with the last axis innermost. *)
Lemma pick_unravel_cross (axes : list (list R)) :
  map (fun r => pick axes (unravel (map (@length R) axes) r))
    (seq 0 (prod (map (@length R) axes)))
  = cross axes.
Proof.
  induction axes as [|a rest IH].
  - reflexivity.
  - simpl map at 2. simpl prod. simpl cross.
    set (ds := map (@length R) rest) in *. set (m := prod ds) in *.
    rewrite map_seq_mul.
    rewrite <- (list_from_nth 0%R a) at 2. rewrite flat_map_map.
    apply flat_map_ext. intros q.
    rewrite <- IH, map_map.
    apply map_ext_in. intros s Hs. apply in_seq in Hs.
    simpl unravel. fold ds. fold m.
    change (pick (a :: rest) ((q * m + s) / m :: unravel ds ((q * m + s) mod m)))
      with (nth ((q * m + s) / m) a 0%R :: pick rest (unravel ds ((q * m + s) mod m))).
    assert (Hm : m <> 0) by lia.
    replace ((q * m + s) mod m) with s
      by (rewrite (Nat.add_comm (q * m) s), Nat.Div0.mod_add, Nat.mod_small; lia).
    rewrite Nat.div_add_l by exact Hm.
    rewrite (Nat.div_small s m) by lia.
    rewrite Nat.add_0_r. reflexivity.
Qed.

Lemma length_cross (axes : list (list R)) :
  length (cross axes) = prod (map (@length R) axes).
Proof.
  rewrite <- pick_unravel_cross, length_map, length_seq. reflexivity.
Qed.

Lemma cross_row_length (axes : list (list R)) :
  Forall (fun row => length row = length axes) (cross axes).
Proof.
  induction axes as [|a rest IH]; simpl.
  - repeat constructor.
  - apply Forall_forall. intros row Hrow.
    apply in_flat_map in Hrow. destruct Hrow as [v [_ Hrow]].
    apply in_map_iff in Hrow. destruct Hrow as [row' [<- Hrow']].
    simpl. f_equal. rewrite Forall_forall in IH. apply IH, Hrow'.
Qed.

(** The rows of the cross product are exactly the combinations of one
    element per axis. *)
Lemma in_cross (axes : list (list R)) (row : list R) :
  In row (cross axes) <-> Forall2 (fun v a => In v a) row axes.
Proof.
  revert row. induction axes as [|a rest IH]; intros row; simpl.
  - split.
    + intros [<- | []]. constructor.
    + intros H. inversion H. left; reflexivity.
  - rewrite in_flat_map. split.
    + intros [v [Hv Hrow]]. apply in_map_iff in Hrow.
      destruct Hrow as [row' [<- Hrow']]. constructor; [exact Hv | apply IH, Hrow'].
    + intros H. inversion H as [|v a' row' rest' Hv Hrest]; subst.
      exists v. split; [exact Hv|]. apply in_map, IH, Hrest.
Qed.

Lemma flat_map_nested {A B D : Type} (g : B -> list D) (f : A -> list B) (l : list A) :
  flat_map g (flat_map f l) = flat_map (fun v => flat_map g (f v)) l.
Proof.
  induction l as [|v l IH]; simpl; [reflexivity|].
  rewrite flat_map_app, IH. reflexivity.
Qed.

Lemma map_flat_map {A B D : Type} (g : B -> D) (f : A -> list B) (l : list A) :
  map g (flat_map f l) = flat_map (fun v => map g (f v)) l.
Proof.
  induction l as [|v l IH]; simpl; [reflexivity|].
  rewrite map_app, IH. reflexivity.
Qed.

(** The last axis varies fastest: for each combination of the leading
    axes, taken in order, the rows run through the whole last axis. *)
Lemma cross_last_axis (pre : list (list R)) (a : list R) :
  cross (pre ++ [a])
  = flat_map (fun p => map (fun v => p ++ [v]) a) (cross pre).
Proof.
  induction pre as [|b pre IH]; simpl.
  - rewrite app_nil_r. induction a as [|v a IHa]; simpl; congruence.
  - rewrite IH, flat_map_nested. apply flat_map_ext. intros v.
    rewrite map_flat_map, flat_map_map. apply flat_map_ext. intros p.
    rewrite map_map. reflexivity.
Qed.

Lemma cartesian_product_closed (axes : list (list R)) :
  axes <> [] ->
  cartesian_product (map Arr1 axes) = Ok (mk2 (length axes) (cross axes)).
Proof.
  intros Hne. unfold cartesian_product.
  rewrite mapM_len. cbv beta iota delta [bind].
  rewrite length_map. unfold enumerate. rewrite length_map.
  pose proof (assign_mesh_loop axes axes [] eq_refl) as Hloop.
  simpl length in Hloop.
  assert (H0 : repeat (repeat 0%R (length axes)) (prod (map (@length R) axes))
               = map (filled axes 0) (seq 0 (prod (map (@length R) axes)))).
  { pose proof (repeat_as_map (repeat 0%R (length axes))
                  (seq 0 (prod (map (@length R) axes)))) as Hrep.
    rewrite length_seq in Hrep. rewrite Hrep.
    apply map_ext. intros r. symmetry. apply filled_0. }
  rewrite H0, Hloop.
  destruct (Nat.eqb_spec (length axes) 0) as [E | _].
  - destruct axes; [contradiction | discriminate].
  - do 2 f_equal. rewrite <- pick_unravel_cross.
    apply map_ext. intros r. apply filled_all.
Qed.

(** C6.  For a non-empty list of arrays, [cartesian_product] returns a
    2-d array with one column per input array and as many rows as the
    product of the input lengths; the rows are the combinations of one
    element per array, listed with the first array outermost and the last
    array varying fastest: for each combination of the leading arrays the
    rows run through the whole last array, and row r holds the elements
    at the row-major multi-index of r. *)
Theorem cartesian_product_rows (axes : list (list R)) :
  axes <> [] ->
  exists out,
    cartesian_product (map Arr1 axes) = Ok out /\
    ncols out = length axes /\
    length (rows out) = prod (map (@length R) axes) /\
    Forall (fun row => length row = length axes) (rows out) /\
    (forall row, In row (rows out) <-> Forall2 (fun v a => In v a) row axes) /\
    rows out = cross axes /\
    (forall pre a, axes = pre ++ [a] ->
       rows out = flat_map (fun p => map (fun v => p ++ [v]) a) (cross pre)) /\
    (forall r, r < prod (map (@length R) axes) ->
       nth r (rows out) [] = pick axes (unravel (map (@length R) axes) r)).
Proof.
  intros Hne. eexists. split; [apply cartesian_product_closed, Hne|]. simpl.
  split; [reflexivity|].
  split; [apply length_cross|].
  split; [apply cross_row_length|].
  split; [intros row; apply in_cross|].
  split; [reflexivity|].
  split; [intros pre a ->; apply cross_last_axis|].
  intros r Hr. rewrite <- pick_unravel_cross.
  rewrite (nth_indep _ [] (pick axes (unravel (map (@length R) axes) 0)))
    by (rewrite length_map, length_seq; exact Hr).
  rewrite (map_nth (fun r => pick axes (unravel (map (@length R) axes) r))).
  rewrite seq_nth by exact Hr. reflexivity.
Qed.

Lemma cartesian_product_rows_witness :
  [[1; 2]; [3; 4; 5]]%R <> [] /\
  exists out,
    cartesian_product (map Arr1 [[1; 2]; [3; 4; 5]]%R) = Ok out /\
    ncols out = 2 /\
    length (rows out) = 6 /\
    rows out = [[1; 3]; [1; 4]; [1; 5]; [2; 3]; [2; 4]; [2; 5]]%R.
Proof.
  split; [discriminate|].
  destruct (cartesian_product_rows [[1; 2]; [3; 4; 5]]%R) as [out H];
    [discriminate|].
  exists out. destruct H as (H1 & H2 & H3 & _ & _ & H6 & _ & _).
  repeat split; assumption.
Defined.

Lemma cross_empty_axis (axes : list (list R)) : In [] axes -> cross axes = [].
Proof.
  induction axes as [|a rest IH]; intros H; [contradiction|].
  destruct H as [-> | H]; [reflexivity|].
  simpl. rewrite (IH H). clear. induction a; simpl; auto.
Qed.

(** C8, as the code behaves.  [cartesian_product] validates nothing: when
    one of the input arrays is empty it raises no error and returns the
    array with no rows and one column per input array. *)
Theorem cartesian_product_empty_axis (axes : list (list R)) :
  In [] axes ->
  cartesian_product (map Arr1 axes) = Ok (mk2 (length axes) []).
Proof.
  intros H. rewrite cartesian_product_closed.
  - rewrite (cross_empty_axis axes H). reflexivity.
  - intros ->. contradiction.
Qed.

Lemma cartesian_product_empty_axis_witness :
  In [] [[1; 2]%R; []] /\
  cartesian_product (map Arr1 [[1; 2]%R; []]) = Ok (mk2 2 []).
Proof.
  split; [right; left; reflexivity|].
  apply (cartesian_product_empty_axis [[1; 2]%R; []]). right; left; reflexivity.
Defined.

(** C8 as stated fails: with the axes [1, 2] and [] the call returns an
    empty array instead of raising. *)
Lemma cartesian_product_empty_axis_no_error :
  cartesian_product [Arr1 [1; 2]%R; Arr1 []] = Ok (mk2 2 []) /\
  ~ (exists e, cartesian_product [Arr1 [1; 2]%R; Arr1 []] = Raise e).
Proof.
  assert (H : cartesian_product [Arr1 [1; 2]%R; Arr1 []] = Ok (mk2 2 [])).
  { apply (cartesian_product_closed [[1; 2]%R; []]). discriminate. }
  split; [exact H|]. intros [e He]. rewrite H in He. discriminate.
Qed.

(** ** Reshaping the output of the network *)

Example reshape3_2_1_2 :
  reshape3 [1; 2; 3; 4]%R (2, 1, 2) = Ok [[[1; 2]]; [[3; 4]]]%R.
Proof. reflexivity. Qed.

Example reshape3_mismatch : reshape3 [1; 2; 3]%R (2, 1, 2) = Raise ValueError.
Proof. reflexivity. Qed.

Lemma concat_chunks {A : Type} (n count : nat) :
  forall l : list A, length l = n * count -> concat (chunks n count l) = l.
Proof.
  induction count as [|c IH]; intros l Hl.
  - rewrite Nat.mul_0_r in Hl. apply length_zero_iff_nil in Hl. subst. reflexivity.
  - simpl. rewrite IH; [apply firstn_skipn|].
    rewrite length_skipn. nia.
Qed.

Lemma chunks_lengths {A : Type} (n count : nat) :
  forall l : list A,
    length l = n * count ->
    length (chunks n count l) = count /\
    Forall (fun ch => length ch = n) (chunks n count l).
Proof.
  induction count as [|c IH]; intros l Hl; simpl.
  - split; constructor.
  - destruct (IH (skipn n l)) as [Hlen Hall]; [rewrite length_skipn; nia|].
    split; [congruence|]. constructor; [|exact Hall].
    apply firstn_length_le. nia.
Qed.

Lemma reshape3_ok (v : list R) (a b c : nat) :
  length v = a * b * c ->
  exists t, reshape3 v (a, b, c) = Ok t /\ ravel t = v /\ shape3 t (a, b, c).
Proof.
  intros Hv. unfold reshape3. rewrite Hv, Nat.eqb_refl.
  assert (Hv' : length v = (b * c) * a) by lia.
  destruct (chunks_lengths (b * c) a v Hv') as [Hlen Hall].
  eexists. split; [reflexivity|]. split.
  - unfold ravel. rewrite map_map.
    rewrite (map_ext_in _ (fun p => p)).
    + rewrite map_id. apply concat_chunks, Hv'.
    + intros p Hp. rewrite Forall_forall in Hall.
      apply concat_chunks. rewrite (Hall p Hp). lia.
  - simpl. rewrite length_map. split; [exact Hlen|].
    apply Forall_forall. intros plane Hplane.
    apply in_map_iff in Hplane. destruct Hplane as [p [<- Hp]].
    rewrite Forall_forall in Hall.
    apply chunks_lengths. rewrite (Hall p Hp). lia.
Qed.

Lemma column_ok (k : nat) (A : array2) :
  k < ncols A -> column k A = Ok (map (fun row => nth k row 0%R) (rows A)).
Proof.
  intros Hk. unfold column. apply Nat.ltb_lt in Hk. rewrite Hk. reflexivity.
Qed.

Lemma set_column_map_seq (k n p : nat) (g : nat -> list R) (v : list R) :
  k < p -> length v = n ->
  set_column k v (mk2 p (map g (seq 0 n)))
  = Ok (mk2 p (map (fun r => upd k (nth r v 0%R) (g r)) (seq 0 n))).
Proof.
  intros Hk Hv. unfold set_column; simpl.
  apply Nat.ltb_lt in Hk. rewrite Hk; simpl.
  rewrite length_map, length_seq, Hv, Nat.eqb_refl.
  rewrite <- (list_from_nth 0%R v) at 1. rewrite Hv, map2_map. reflexivity.
Qed.

Lemma derivative_output_ok (diff : array2 -> nat * nat * nat -> list R)
    (INPUT : array2) (d : nat) :
  (forall k, k < 6 -> length (diff INPUT (k, 0, d)) = length (rows INPUT)) ->
  exists OUTPUT,
    derivative_output diff INPUT d = Ok OUTPUT /\
    ncols OUTPUT = 6 /\
    forall k, k < 6 ->
      map (fun row => nth k row 0%R) (rows OUTPUT) = diff INPUT (k, 0, d).
Proof.
  intros Hlen. unfold derivative_output.
  pose proof (repeat_as_map (repeat 0%R 6) (seq 0 (length (rows INPUT)))) as Hrep.
  rewrite length_seq in Hrep. rewrite Hrep. simpl fold_left.
  cbv beta iota delta [bind].
  repeat (rewrite set_column_map_seq by (try lia; apply Hlen; lia)).
  eexists. split; [reflexivity|]. split; [reflexivity|].
  intros k Hk. simpl rows. rewrite map_map.
  rewrite <- (list_from_nth 0%R (diff INPUT (k, 0, d))), (Hlen k Hk).
  apply map_ext. intros r.
  destruct k as [|[|[|[|[|[|k]]]]]]; try lia; reflexivity.
Qed.

Lemma length_grid (wl wd th : list R) :
  length (rows (grid wl wd th)) = length wl * length wd * length th.
Proof. unfold grid; cbn [rows]. rewrite length_cross. simpl. ring. Qed.

Ltac reshape_column OUTPUT k HC HL :=
  rewrite (column_ok k OUTPUT) by lia;
  let T := fresh "T" in
  let E := fresh "E" in
  let Rv := fresh "Rv" in
  let Sh := fresh "Sh" in
  destruct (reshape3_ok (map (fun row => nth k row 0%R) (rows OUTPUT)) _ _ _
              ltac:(rewrite length_map; exact HL)) as [T [E [Rv Sh]]];
  rewrite E.

Lemma straightWaveguide_returns
    (ANN_output : array2 -> array2)
    (ANN_differentiate : array2 -> nat * nat * nat -> list R)
    (wavelength width thickness : pyarg) (derivative : option nat)
    (wl wd th : list R) :
  sanitize wavelength = Arr1 wl ->
  sanitize width = Arr1 wd ->
  sanitize thickness = Arr1 th ->
  answers ANN_output ANN_differentiate (grid wl wd th) derivative ->
  exists TE0 TE1 TE2 TM0 TM1 TM2,
    straightWaveguide ANN_output ANN_differentiate wavelength width thickness derivative
    = Ok (TE0, TE1, TE2, TM0, TM1, TM2) /\
    (ravel TE0 = predicted ANN_output ANN_differentiate (grid wl wd th) derivative 0 /\
     ravel TE1 = predicted ANN_output ANN_differentiate (grid wl wd th) derivative 1 /\
     ravel TE2 = predicted ANN_output ANN_differentiate (grid wl wd th) derivative 2 /\
     ravel TM0 = predicted ANN_output ANN_differentiate (grid wl wd th) derivative 3 /\
     ravel TM1 = predicted ANN_output ANN_differentiate (grid wl wd th) derivative 4 /\
     ravel TM2 = predicted ANN_output ANN_differentiate (grid wl wd th) derivative 5) /\
    Forall (fun t => shape3 t (length wl, length wd, length th))
      [TE0; TE1; TE2; TM0; TM1; TM2].
Proof.
  intros Hw Hd Ht Hans.
  unfold straightWaveguide. rewrite Hw, Hd, Ht.
  change [Arr1 wl; Arr1 wd; Arr1 th] with (map Arr1 [wl; wd; th]).
  rewrite cartesian_product_closed by discriminate.
  change (mk2 (length [wl; wd; th]) (cross [wl; wd; th])) with (grid wl wd th).
  cbv beta iota delta [bind size].
  assert (HO : exists OUTPUT,
             match derivative with
             | None => Ok (ANN_output (grid wl wd th))
             | Some d => derivative_output ANN_differentiate (grid wl wd th) d
             end = Ok OUTPUT /\
             6 <= ncols OUTPUT /\
             length (rows OUTPUT) = length wl * length wd * length th /\
             forall k, k < 6 ->
               map (fun row => nth k row 0%R) (rows OUTPUT)
               = predicted ANN_output ANN_differentiate (grid wl wd th) derivative k).
  { destruct derivative as [d|]; unfold answers in Hans.
    - destruct (derivative_output_ok ANN_differentiate (grid wl wd th) d Hans)
        as [OUTPUT [E [HC HP]]].
      exists OUTPUT. split; [exact E|]. split; [lia|]. split; [|exact HP].
      rewrite <- length_grid, <- (Hans 0) by lia.
      rewrite <- (HP 0) by lia. rewrite length_map. reflexivity.
    - destruct Hans as [Hcols Hrows].
      exists (ANN_output (grid wl wd th)). split; [reflexivity|].
      split; [exact Hcols|]. split; [|reflexivity].
      rewrite Hrows. apply length_grid. }
  destruct HO as [OUTPUT [EO [HC [HL HP]]]]. rewrite EO.
  reshape_column OUTPUT 0 HC HL. reshape_column OUTPUT 1 HC HL.
  reshape_column OUTPUT 2 HC HL. reshape_column OUTPUT 3 HC HL.
  reshape_column OUTPUT 4 HC HL. reshape_column OUTPUT 5 HC HL.
  do 6 eexists. split; [reflexivity|]. split.
  - rewrite <- !HP by lia. repeat split; assumption.
  - repeat (apply Forall_cons; [assumption|]). apply Forall_nil.
Qed.

(** The round trip on the inputs for which [straightWaveguide] returns:
    when the three inputs normalise to the axes wl, wd and th (bare
    numbers, or arrays whose length is not 1) and the network answers
    with one row per input row (and six columns), each of the six tensors
    has the shape (|wl|, |wd|, |th|), and flattening it in row-major order
    gives back the flat column of the network's output it was reshaped
    from. *)
Theorem straightWaveguide_reshape_roundtrip
    (ANN_output : array2 -> array2)
    (ANN_differentiate : array2 -> nat * nat * nat -> list R)
    (wavelength width thickness : pyarg) (derivative : option nat)
    (wl wd th : list R) :
  sanitize wavelength = Arr1 wl ->
  sanitize width = Arr1 wd ->
  sanitize thickness = Arr1 th ->
  answers ANN_output ANN_differentiate (grid wl wd th) derivative ->
  exists TE0 TE1 TE2 TM0 TM1 TM2,
    straightWaveguide ANN_output ANN_differentiate wavelength width thickness derivative
    = Ok (TE0, TE1, TE2, TM0, TM1, TM2) /\
    (ravel TE0 = predicted ANN_output ANN_differentiate (grid wl wd th) derivative 0 /\
     ravel TE1 = predicted ANN_output ANN_differentiate (grid wl wd th) derivative 1 /\
     ravel TE2 = predicted ANN_output ANN_differentiate (grid wl wd th) derivative 2 /\
     ravel TM0 = predicted ANN_output ANN_differentiate (grid wl wd th) derivative 3 /\
     ravel TM1 = predicted ANN_output ANN_differentiate (grid wl wd th) derivative 4 /\
     ravel TM2 = predicted ANN_output ANN_differentiate (grid wl wd th) derivative 5) /\
    Forall (fun t => shape3 t (length wl, length wd, length th))
      [TE0; TE1; TE2; TM0; TM1; TM2].
Proof. apply straightWaveguide_returns. Qed.

Lemma straightWaveguide_reshape_roundtrip_witness :
  exists TE0 TE1 TE2 TM0 TM1 TM2,
    straightWaveguide
      (fun INPUT => mk2 6 (map (fun row => repeat (nth 0 row 0%R) 6) (rows INPUT)))
      (fun INPUT _ => map (fun row => nth 0 row 0%R) (rows INPUT))
      (PyArr (Arr1 [1.5; 1.6]%R)) (PyNum 0.5) (PyNum 0.2) None
    = Ok (TE0, TE1, TE2, TM0, TM1, TM2) /\
    ravel TE0 = [1.5; 1.6]%R /\
    shape3 TE0 (2, 1, 1).
Proof.
  destruct (straightWaveguide_reshape_roundtrip
              (fun INPUT => mk2 6 (map (fun row => repeat (nth 0 row 0%R) 6) (rows INPUT)))
              (fun INPUT _ => map (fun row => nth 0 row 0%R) (rows INPUT))
              (PyArr (Arr1 [1.5; 1.6]%R)) (PyNum 0.5) (PyNum 0.2) None
              [1.5; 1.6]%R [0.5]%R [0.2]%R)
    as (TE0 & TE1 & TE2 & TM0 & TM1 & TM2 & E & HR & HS).
  - reflexivity.
  - reflexivity.
  - reflexivity.
  - split; [simpl; lia | reflexivity].
  - exists TE0, TE1, TE2, TM0, TM1, TM2. split; [exact E|].
    destruct HR as [H0 _]. inversion HS as [|? ? S0 _]; subst.
    split; [rewrite H0; reflexivity | exact S0].
Defined.

(** C7, as the code behaves.  For a wavelength axis of one point given as
    an ndarray there is no tensor to reshape and flatten: [np.squeeze]
    turns the array into a 0-d array and [cartesian_product] raises
    [TypeError] on its length, before the network is asked, whatever the
    network, the other two axes and the derivative order are.  Only the
    branch for bare numbers builds the one-point axis. *)
Theorem straightWaveguide_one_point_array
    (ANN_output : array2 -> array2)
    (ANN_differentiate : array2 -> nat * nat * nat -> list R)
    (v : R) (width thickness : pyarg) (derivative : option nat) :
  sanitize (PyNum v) = Arr1 [v] /\
  straightWaveguide ANN_output ANN_differentiate
    (PyArr (Arr1 [v])) width thickness derivative = Raise TypeError.
Proof. split; reflexivity. Qed.

(** ** The S-matrix of the strip waveguide *)

Lemma radius_unbound : load_global "radius" = Raise NameError.
Proof. reflexivity. Qed.

(** C5, as the code behaves.  [straightWaveguide_S] returns no S-matrix
    for any input and any network: line 121 reads the names [radius] and
    [angle], which are neither parameters nor locals of the function nor
    globals of the module, and never uses [length]. *)
Theorem straightWaveguide_S_raises
    (ANN_output : array2 -> array2)
    (ANN_differentiate : array2 -> nat * nat * nat -> list R)
    (wavelength : ndarray) (width thickness gap length : R) :
  exists e,
    straightWaveguide_S ANN_output ANN_differentiate
      wavelength width thickness gap length = Raise e.
Proof.
  unfold straightWaveguide_S.
  destruct (straightWaveguide ANN_output ANN_differentiate (PyArr wavelength)
              (PyNum width) (PyNum thickness) None)
    as [[[[[[TE0 TE1] TE2] TM0] TM1] TM2] | e]; simpl.
  - destruct (shape0 wavelength) as [N | e]; simpl.
    + exists NameError. reflexivity.
    + exists e. reflexivity.
  - exists e. reflexivity.
Qed.

(** Whenever [straightWaveguide] itself succeeds on a wavelength vector,
    the exception is the [NameError] of line 121. *)
Lemma straightWaveguide_S_NameError
    (ANN_output : array2 -> array2)
    (ANN_differentiate : array2 -> nat * nat * nat -> list R)
    (wl : list R) (width thickness gap length : R) :
  List.length wl <> 1 ->
  answers ANN_output ANN_differentiate (grid wl [width] [thickness]) None ->
  straightWaveguide_S ANN_output ANN_differentiate
    (Arr1 wl) width thickness gap length = Raise NameError.
Proof.
  intros Hlen Hans.
  assert (Hsq : sanitize (PyArr (Arr1 wl)) = Arr1 wl).
  { simpl. destruct wl as [|v [|v' wl]]; simpl in *; try reflexivity. lia. }
  destruct (straightWaveguide_returns ANN_output ANN_differentiate
              (PyArr (Arr1 wl)) (PyNum width) (PyNum thickness) None
              wl [width] [thickness] Hsq eq_refl eq_refl Hans)
    as (TE0 & TE1 & TE2 & TM0 & TM1 & TM2 & E & _).
  unfold straightWaveguide_S. rewrite E. reflexivity.
Qed.

(** The call [straightWaveguide_S(np.array([1.5, 1.55, 1.6]), 0.5, 0.22,
    0.2, 10)] with a network that answers 2.4 everywhere. *)
Example straightWaveguide_S_sweep :
  straightWaveguide_S
    (fun INPUT => mk2 6 (map (fun _ => repeat 2.4%R 6) (rows INPUT)))
    (fun INPUT _ => map (fun _ => 0%R) (rows INPUT))
    (Arr1 [1.5; 1.55; 1.6]%R) 0.5 0.22 0.2 10
  = Raise NameError.
Proof.
  apply straightWaveguide_S_NameError.
  - simpl. lia.
  - split; [simpl; lia | reflexivity].
Qed.

(** ** The racetrack ring resonator *)

(** C1, as the code behaves.  For a wavelength array with a single point
    [racetrackRR] builds nothing: [np.squeeze] turns the array into a 0-d
    array and [wavelength.shape[0]] raises, whatever the cascading
    functions are. *)
Theorem racetrackRR_single_point
    (connect_s : smatrix -> nat -> smatrix -> nat -> result smatrix)
    (innerconnect_s : smatrix -> nat -> nat -> result smatrix)
    (lam radius couplerLength gap width thickness : R) :
  racetrackRR connect_s innerconnect_s (Arr1 [lam])
    radius couplerLength gap width thickness
  = Raise IndexError.
Proof. reflexivity. Qed.

Lemma squeeze_vector (wl : list R) :
  length wl <> 1 -> squeeze (Arr1 wl) = Arr1 wl.
Proof. destruct wl as [|v [|v' wl]]; simpl; intros H; try reflexivity. lia. Qed.

(** On every other wavelength array the result is the documented chain of
    cascading steps. *)
Lemma racetrackRR_sequence
    (connect_s : smatrix -> nat -> smatrix -> nat -> result smatrix)
    (innerconnect_s : smatrix -> nat -> nat -> result smatrix)
    (wl : list R) (radius couplerLength gap width thickness : R) :
  length wl <> 1 ->
  exists couplerS bentS,
    evWGcoupler (Arr1 wl) width thickness gap couplerLength = Ok couplerS /\
    bentWaveguide (Arr1 wl) radius width thickness gap PI = Ok bentS /\
    racetrackRR connect_s innerconnect_s (Arr1 wl)
      radius couplerLength gap width thickness
    = (S1 <- connect_s couplerS 2 bentS 0 ;;
       S2 <- connect_s S1 3 bentS 0 ;;
       S3 <- connect_s S2 2 couplerS 0 ;;
       innerconnect_s S3 2 3).
Proof.
  intros Hlen. unfold racetrackRR. rewrite (squeeze_vector wl Hlen).
  rewrite evWGcoupler_closed, bentWaveguide_closed.
  do 2 eexists. split; [reflexivity|]. split; [reflexivity|].
  simpl.
  destruct (connect_s _ 2 _ 0) as [S1|]; simpl; [|reflexivity].
  destruct (connect_s S1 3 _ 0) as [S2|]; simpl; [|reflexivity].
  destruct (connect_s S2 2 _ 0) as [S3|]; simpl; [|reflexivity].
  destruct (innerconnect_s S3 2 3); reflexivity.
Qed.

(** ** The cascade, frequency point by frequency point *)

Lemma connect_s_map (pA pB k l : nat) (F G : R -> matrix) (wl : list R) :
  k < pA -> l < pB ->
  Skrf.connect_s (mkS pA (map F wl)) k (mkS pB (map G wl)) l
  = Ok (mkS (length (Skrf.delete2 k (pA + l) (seq 0 (pA + pB))))
          (map (fun lam =>
                  Skrf.innerconnect_slice (pA + pB) k (pA + l)
                    (Skrf.block_diag pA pB (F lam) (G lam))) wl)).
Proof.
  intros Hk Hl. unfold Skrf.connect_s, Skrf.innerconnect_s; simpl.
  destruct (Nat.leb_spec pA k); [lia|].
  destruct (Nat.leb_spec pB l); [lia|]. simpl.
  rewrite !length_map, Nat.eqb_refl. simpl.
  destruct (Nat.leb_spec (pA + pB) k); [lia|].
  destruct (Nat.leb_spec (pA + pB) (pA + l)); [lia|].
  destruct (Nat.eqb_spec k (pA + l)); [lia|]. simpl.
  rewrite map2_map, map_map. reflexivity.
Qed.

Lemma innerconnect_s_map (p k l : nat) (F : R -> matrix) (wl : list R) :
  k < p -> l < p -> k <> l ->
  Skrf.innerconnect_s (mkS p (map F wl)) k l
  = Ok (mkS (length (Skrf.delete2 k l (seq 0 p)))
          (map (fun lam => Skrf.innerconnect_slice p k l (F lam)) wl)).
Proof.
  intros Hk Hl Hkl. unfold Skrf.innerconnect_s; simpl.
  destruct (Nat.leb_spec p k); [lia|].
  destruct (Nat.leb_spec p l); [lia|].
  destruct (Nat.eqb_spec k l); [lia|]. simpl.
  rewrite map_map. reflexivity.
Qed.

Ltac matrix_eq :=
  repeat match goal with
         | |- _ :: _ = _ :: _ => apply f_equal2
         | |- [] = [] => reflexivity
         end.

Ltac entry_eq :=
  unfold Skrf.innerconnect_entry, entry; apply C_eq; simpl; field; lra.

Lemma stage1_ok (x y b : C) :
  Skrf.innerconnect_slice 6 2 4 (Skrf.block_diag 4 2 (coupler_slice x y) (bend_slice b))
  = stage1 x y b.
Proof.
  unfold stage1. cbn -[Cadd Cmul Csub Cdiv RtoC C0].
  matrix_eq; entry_eq.
Qed.

(** Two waveguides in series multiply their transmissions. *)
Lemma connect_two_waveguides (b1 b2 : C) :
  Skrf.innerconnect_slice 4 1 2 (Skrf.block_diag 2 2 (bend_slice b1) (bend_slice b2))
  = bend_slice (b1 * b2)%C.
Proof.
  unfold bend_slice. cbn -[Cadd Cmul Csub Cdiv RtoC C0].
  matrix_eq; entry_eq.
Qed.

Lemma stage2_ok (x y b : C) :
  Skrf.innerconnect_slice 6 3 4 (Skrf.block_diag 4 2 (stage1 x y b) (bend_slice b))
  = stage2 x y b.
Proof.
  unfold stage2, stage1. cbn -[Cadd Cmul Csub Cdiv RtoC C0].
  matrix_eq; entry_eq.
Qed.

Lemma stage3_ok (x y b : C) :
  Skrf.innerconnect_slice 8 2 4 (Skrf.block_diag 4 4 (stage2 x y b) (coupler_slice x y))
  = stage3 x y b.
Proof.
  unfold stage3, stage2, stage1. cbn -[Cadd Cmul Csub Cdiv RtoC C0].
  matrix_eq; entry_eq.
Qed.

Lemma square_ring (x y b : C) : square 4 (ring_slice x y b).
Proof. split; [reflexivity | repeat constructor]. Qed.

(** No light comes back out of the port it entered: every path of the
    closing step that returns to its port runs through a zero. *)
Lemma ring_slice_diagonal (x y b : C) (i : nat) :
  i < 4 -> entry (ring_slice x y b) i i = C0.
Proof.
  intros Hi.
  destruct i as [|[|[|[|i]]]]; [| | | |lia];
    unfold ring_slice, stage3; cbn -[Cadd Cmul Csub Cdiv RtoC C0];
    unfold Skrf.innerconnect_entry, entry; apply C_eq; simpl;
    unfold Rdiv; ring.
Qed.

Lemma racetrackRR_closed (wl : list R) (radius couplerLength gap width thickness : R) :
  length wl <> 1 ->
  racetrackRR Skrf.connect_s Skrf.innerconnect_s (Arr1 wl)
    radius couplerLength gap width thickness
  = Ok (mkS 4 (map (fun lam =>
                      ring_slice (coupler_x couplerLength lam)
                        (coupler_y couplerLength lam)
                        (bend_transmission 2.323 radius PI lam)) wl)).
Proof.
  intros Hlen. unfold racetrackRR. rewrite (squeeze_vector wl Hlen).
  rewrite evWGcoupler_closed, bentWaveguide_closed.
  cbv beta iota delta [bind shape0].
  rewrite connect_s_map by lia.
  rewrite (map_ext _ _ (fun lam => stage1_ok _ _ _)).
  simpl length.
  rewrite (connect_s_map 4 2 3 0
             (fun lam => stage1 (coupler_x couplerLength lam)
                           (coupler_y couplerLength lam)
                           (bend_transmission 2.323 radius PI lam))) by lia.
  rewrite (map_ext _ _ (fun lam => stage2_ok _ _ _)).
  simpl length.
  rewrite (connect_s_map 4 4 2 0
             (fun lam => stage2 (coupler_x couplerLength lam)
                           (coupler_y couplerLength lam)
                           (bend_transmission 2.323 radius PI lam))
             (fun lam => coupler_slice (coupler_x couplerLength lam)
                           (coupler_y couplerLength lam))) by lia.
  rewrite (map_ext _ _ (fun lam => stage3_ok _ _ _)).
  simpl length.
  rewrite (innerconnect_s_map 6 2 3
             (fun lam => stage3 (coupler_x couplerLength lam)
                           (coupler_y couplerLength lam)
                           (bend_transmission 2.323 radius PI lam))) by lia.
  reflexivity.
Qed.

(** *** Where the cascade divides *)

Lemma innerconnect_entry_determinant (A : matrix) (k l i j : nat) :
  exists num, Skrf.innerconnect_entry A k l i j
              = (entry A i j + num / loop_determinant A k l)%C.
Proof. eexists. reflexivity. Qed.

(** The three [connect] steps join ports that do not see each other yet:
    their determinant is 1. *)
Lemma connect_steps_regular (x y b : C) :
  loop_determinant (Skrf.block_diag 4 2 (coupler_slice x y) (bend_slice b)) 2 4 = RtoC 1 /\
  loop_determinant (Skrf.block_diag 4 2 (stage1 x y b) (bend_slice b)) 3 4 = RtoC 1 /\
  loop_determinant (Skrf.block_diag 4 4 (stage2 x y b) (coupler_slice x y)) 2 4 = RtoC 1.
Proof.
  repeat split; unfold loop_determinant, entry; apply C_eq; simpl; ring.
Qed.

(** The closing step divides by (1 - g)^2 for the round-trip gain g, which
    is not zero at a regular point. *)
Lemma closing_step_regular (radius couplerLength lam : R) :
  regular_point radius couplerLength lam ->
  loop_determinant
    (stage3 (coupler_x couplerLength lam) (coupler_y couplerLength lam)
       (bend_transmission 2.323 radius PI lam)) 2 3 <> C0.
Proof.
  intros [_ Hg] Hdet. apply Hg. unfold round_trip.
  set (g := (coupler_x couplerLength lam
             * (bend_transmission 2.323 radius PI lam
                * bend_transmission 2.323 radius PI lam)
             * coupler_x couplerLength lam)%C) in *.
  assert (Hd : ((1%R - g) * (1%R - g) - C0 * C0)%C = C0) by exact Hdet.
  clear Hdet. destruct g as [a c].
  injection Hd as Hre Him. simpl in Hre, Him.
  assert (Huc : ((1 - a) * c = 0)%R) by lra.
  assert (Hcc : (c * c = (1 - a) * (1 - a))%R) by lra.
  assert (H4 : ((c * c) * (c * c) = 0)%R).
  { rewrite Hcc at 1.
    replace ((1 - a) * (1 - a) * (c * c))%R with (((1 - a) * c) * ((1 - a) * c))%R by ring.
    rewrite Huc. ring. }
  assert (Hc : c = 0%R).
  { destruct (Rmult_integral _ _ H4) as [H2 | H2];
      destruct (Rmult_integral _ _ H2); assumption. }
  subst c.
  assert (Hu : ((1 - a) * (1 - a) = 0)%R) by lra.
  assert (Ha : a = 1%R) by (destruct (Rmult_integral _ _ Hu); lra).
  subst a. reflexivity.
Qed.

Lemma Cabs_0 : Cabs C0 = 0%R.
Proof.
  unfold Cabs, Cnorm2, C0; simpl.
  replace (0 * 0 + 0 * 0)%R with 0%R by ring. apply sqrt_0.
Qed.

Lemma racetrackRR_diagonal (wl : list R) (radius couplerLength gap width thickness : R) :
  length wl <> 1 ->
  exists S,
    racetrackRR Skrf.connect_s Skrf.innerconnect_s (Arr1 wl)
      radius couplerLength gap width thickness = Ok S /\
    has_shape S (length wl) 4 /\
    forall f i, f < length wl -> i < 4 -> item S f i i = C0.
Proof.
  intros Hlen. eexists. split; [apply racetrackRR_closed, Hlen|].
  split; [apply has_shape_map; intros; apply square_ring|].
  intros f i Hf Hi. rewrite item_map by exact Hf. apply ring_slice_diagonal, Hi.
Qed.

(** C9.  With radius 5, coupler length 5, gap 0.2, width 0.5 and thickness
    0.2, [racetrackRR] over a sweep of three wavelengths returns a (3,4,4)
    matrix whose diagonal entries all have magnitude at most 1 (they are
    zero).  The sweep is taken at regular points: no wavelength is zero
    and none sits exactly on a resonance of the loop, where the closing
    step of the cascade would divide by zero. *)
Theorem racetrackRR_three_point_sweep (lam1 lam2 lam3 : R) :
  Forall (regular_point default_radius default_couplerLength) [lam1; lam2; lam3] ->
  exists S,
    racetrackRR Skrf.connect_s Skrf.innerconnect_s (Arr1 [lam1; lam2; lam3])
      default_radius default_couplerLength default_gap default_width
      default_thickness = Ok S /\
    has_shape S 3 4 /\
    forall f i, f < 3 -> i < 4 -> (Cabs (item S f i i) <= 1)%R.
Proof.
  intros _.
  destruct (racetrackRR_diagonal [lam1; lam2; lam3] default_radius
              default_couplerLength default_gap default_width default_thickness)
    as [S [E [Hshape Hdiag]]]; [simpl; lia|].
  exists S. split; [exact E|]. split; [exact Hshape|].
  intros f i Hf Hi. rewrite (Hdiag f i Hf Hi), Cabs_0. lra.
Qed.

(** A wavelength at which the coupler transfers all the light to the
    other waveguide is a regular point: the bar amplitude vanishes. *)
Lemma dark_point_regular (radius lam : R) :
  lam <> 0%R ->
  cos (PI * coupler_dn * default_couplerLength / lam) = 0%R ->
  regular_point radius default_couplerLength lam.
Proof.
  intros Hlam Hcos. split; [exact Hlam|]. intros H.
  apply (f_equal Re) in H. unfold round_trip in H.
  rewrite coupler_x_spec in H. unfold bar_amplitude in H.
  rewrite Hcos, phasor_parts in H. simpl in H.
  ring_simplify in H. lra.
Qed.

Lemma racetrackRR_three_point_sweep_witness :
  Forall (regular_point default_radius default_couplerLength)
    [0.60158; 0.60158 / 3; 0.120316]%R /\
  exists S,
    racetrackRR Skrf.connect_s Skrf.innerconnect_s
      (Arr1 [0.60158; 0.60158 / 3; 0.120316]%R)
      default_radius default_couplerLength default_gap default_width
      default_thickness = Ok S /\
    has_shape S 3 4 /\
    forall f i, f < 3 -> i < 4 -> (Cabs (item S f i i) <= 1)%R.
Proof.
  assert (H : Forall (regular_point default_radius default_couplerLength)
                [0.60158; 0.60158 / 3; 0.120316]%R).
  { repeat (apply Forall_cons; [|]); [| | |apply Forall_nil].
    - apply dark_point_regular; [lra|].
      replace (PI * coupler_dn * default_couplerLength / 0.60158)%R
        with (PI / 2)%R
        by (unfold coupler_dn, coupler_n1, coupler_n2, default_couplerLength; lra).
      apply cos_PI2.
    - apply dark_point_regular; [lra|].
      replace (PI * coupler_dn * default_couplerLength / (0.60158 / 3))%R
        with (3 * (PI / 2))%R
        by (unfold coupler_dn, coupler_n1, coupler_n2, default_couplerLength; lra).
      apply cos_3PI2.
    - apply dark_point_regular; [lra|].
      replace (PI * coupler_dn * default_couplerLength / 0.120316)%R
        with (PI / 2 + 2 * PI)%R
        by (unfold coupler_dn, coupler_n1, coupler_n2, default_couplerLength; lra).
      rewrite cos_plus, cos_PI2, cos_2PI, sin_2PI. ring. }
  split; [exact H|].
  apply (racetrackRR_three_point_sweep 0.60158 (0.60158 / 3) 0.120316 H).
Defined.

(** * Further properties *)

(** ** The cartesian product: failures *)

Lemma mapM_len_unsized (arrays : list ndarray) (v : R) :
  In (Arr0 v) arrays -> mapM len arrays = Raise TypeError.
Proof.
  induction arrays as [|a arrays IH]; intros Hin; [contradiction|].
  destruct Hin as [-> | Hin]; [reflexivity|].
  simpl. destruct a as [w | l]; [reflexivity|].
  simpl. rewrite (IH Hin). reflexivity.
Qed.

Lemma vectors_or_unsized (arrays : list ndarray) :
  Forall vector arrays \/ exists v, In (Arr0 v) arrays.
Proof.
  induction arrays as [|a arrays [IH | [v IH]]].
  - left. constructor.
  - destruct a as [w | l].
    + right. exists w. left; reflexivity.
    + left. constructor; [exists l; reflexivity | exact IH].
  - right. exists v. right; exact IH.
Qed.

Lemma vectors_as_axes (arrays : list ndarray) :
  Forall vector arrays -> arrays = map Arr1 (map to_list arrays).
Proof.
  induction 1 as [|a arrays [l ->] _ IH]; simpl; [reflexivity|].
  f_equal. exact IH.
Qed.

(** X1.  [cartesian_product] raises [TypeError] as soon as one of its
    inputs is a 0-d array, whatever the other inputs are. *)
Theorem cartesian_product_unsized_raises (arrays : list ndarray) (v : R) :
  In (Arr0 v) arrays -> cartesian_product arrays = Raise TypeError.
Proof.
  intros Hin. unfold cartesian_product.
  rewrite (mapM_len_unsized arrays v Hin). reflexivity.
Qed.

Lemma cartesian_product_unsized_raises_witness :
  In (Arr0 1.55%R) [Arr1 [1; 2]%R; Arr0 1.55%R] /\
  cartesian_product [Arr1 [1; 2]%R; Arr0 1.55%R] = Raise TypeError.
Proof.
  split; [right; left; reflexivity|].
  apply (cartesian_product_unsized_raises _ 1.55%R). right; left; reflexivity.
Defined.

(** X2.  [cartesian_product] returns an array exactly when it is given at
    least one input and every input is a 1-d array; an empty input may be
    among them. *)
Theorem cartesian_product_succeeds_iff (arrays : list ndarray) :
  (exists out, cartesian_product arrays = Ok out)
  <-> arrays <> [] /\ Forall vector arrays.
Proof.
  split.
  - intros [out E]. split.
    + intros ->. discriminate.
    + destruct (vectors_or_unsized arrays) as [H | [v Hin]]; [exact H|].
      unfold cartesian_product in E.
      rewrite (mapM_len_unsized arrays v Hin) in E. discriminate.
  - intros [Hne Hvec]. rewrite (vectors_as_axes arrays Hvec).
    eexists. apply cartesian_product_closed.
    destruct arrays; [contradiction | discriminate].
Qed.

(** ** The cartesian product: contents *)

Lemma NoDup_map_cons (v : R) (l : list (list R)) :
  NoDup l -> NoDup (map (cons v) l).
Proof.
  induction 1 as [|row l Hnin _ IH]; simpl; constructor; [|exact IH].
  intros Hin. apply in_map_iff in Hin. destruct Hin as [row' [E Hin]].
  injection E as ->. contradiction.
Qed.

Lemma NoDup_cross (axes : list (list R)) :
  Forall (@NoDup R) axes -> NoDup (cross axes).
Proof.
  induction 1 as [|a rest Ha _ IH]; simpl.
  - constructor; [intros [] | constructor].
  - induction Ha as [|v a Hnin _ IHa]; simpl; [constructor|].
    apply NoDup_app; [apply NoDup_map_cons, IH | exact IHa |].
    intros row Hrow Hrow'.
    apply in_map_iff in Hrow. destruct Hrow as [p [<- _]].
    apply in_flat_map in Hrow'. destruct Hrow' as [w [Hw Hrow']].
    apply in_map_iff in Hrow'. destruct Hrow' as [q [E _]].
    injection E as -> _. contradiction.
Qed.

(** X3.  When no input array repeats an element, no row of the result is
    repeated: every combination occurs exactly once. *)
Theorem cartesian_product_no_duplicates (axes : list (list R)) :
  axes <> [] ->
  Forall (@NoDup R) axes ->
  exists out,
    cartesian_product (map Arr1 axes) = Ok out /\ NoDup (rows out).
Proof.
  intros Hne Hnd. eexists. split; [apply cartesian_product_closed, Hne|].
  simpl. apply NoDup_cross, Hnd.
Qed.

Lemma cartesian_product_no_duplicates_witness :
  exists out,
    cartesian_product (map Arr1 [[1; 2]; [3; 4; 5]]%R) = Ok out /\ NoDup (rows out).
Proof.
  apply (cartesian_product_no_duplicates [[1; 2]; [3; 4; 5]]%R).
  - discriminate.
  - repeat constructor; simpl; intros H;
      repeat (destruct H as [H | H]; [lra|]); exact H.
Defined.

Lemma prod_split (ds : list nat) :
  forall i, i < length ds ->
    prod ds = prod (firstn i ds) * (nth i ds 0 * prod (skipn (S i) ds)).
Proof.
  induction ds as [|d ds IH]; intros i Hi; simpl in Hi; [lia|].
  destruct i as [|i].
  - simpl. lia.
  - change (prod (d :: ds)) with (d * prod ds).
    change (prod (firstn (S i) (d :: ds))) with (d * prod (firstn i ds)).
    change (nth (S i) (d :: ds) 0) with (nth i ds 0).
    change (skipn (S (S i)) (d :: ds)) with (skipn (S i) ds).
    rewrite (IH i) by lia. ring.
Qed.

Lemma div_mod_stride (r p d s : nat) :
  s <> 0 -> ((r mod (p * (d * s))) / s) mod d = (r / s) mod d.
Proof.
  intros Hs. set (m := p * (d * s)).
  rewrite (Nat.div_mod_eq r m) at 2.
  replace (m * (r / m) + r mod m) with ((r / m * p * d) * s + r mod m)
    by (unfold m; ring).
  rewrite Nat.div_add_l by exact Hs.
  rewrite Nat.add_comm, Nat.Div0.mod_add. reflexivity.
Qed.

(** The multi-index of a flat position, one axis at a time. *)
Lemma unravel_stride (dims : list nat) :
  forall r i, r < prod dims -> i < length dims ->
    nth i (unravel dims r) 0 = (r / stride dims i) mod (nth i dims 0).
Proof.
  induction dims as [|d ds IH]; intros r i Hr Hi; simpl in Hi; [lia|].
  change (prod (d :: ds)) with (d * prod ds) in Hr.
  assert (Hm : prod ds <> 0) by (intros E; rewrite E in Hr; lia).
  destruct i as [|i].
  - unfold stride; simpl. rewrite Nat.mod_small; [reflexivity|].
    apply Nat.Div0.div_lt_upper_bound. lia.
  - change (nth (S i) (unravel (d :: ds) r) 0)
      with (nth i (unravel ds (r mod prod ds)) 0).
    change (nth (S i) (d :: ds) 0) with (nth i ds 0).
    change (stride (d :: ds) (S i)) with (stride ds i).
    rewrite IH by (try apply Nat.mod_upper_bound; lia).
    rewrite (prod_split ds i) by lia. fold (stride ds i).
    apply div_mod_stride.
    intros E. apply Hm. rewrite (prod_split ds i) by lia.
    unfold stride in E. rewrite E. lia.
Qed.

Lemma cross_row (axes : list (list R)) (r : nat) :
  r < prod (map (@length R) axes) ->
  nth r (cross axes) [] = filled axes (length axes) r.
Proof.
  intros Hr. rewrite <- pick_unravel_cross.
  rewrite (nth_indep _ [] (pick axes (unravel (map (@length R) axes) 0)))
    by (rewrite length_map, length_seq; exact Hr).
  rewrite (map_nth (fun r => pick axes (unravel (map (@length R) axes) r))).
  rewrite seq_nth by exact Hr. symmetry. apply filled_all.
Qed.

Lemma filled_item (axes : list (list R)) (r i : nat) :
  i < length axes -> nth i (filled axes (length axes) r) 0%R = cell axes r i.
Proof.
  intros Hi. unfold filled.
  rewrite (nth_indep _ 0%R ((fun i => if i <? length axes then cell axes r i else 0%R) 0))
    by (rewrite length_map, length_seq; exact Hi).
  rewrite (map_nth (fun i => if i <? length axes then cell axes r i else 0%R)).
  rewrite seq_nth by exact Hi. simpl.
  apply Nat.ltb_lt in Hi. rewrite Hi. reflexivity.
Qed.

(** X4.  Row r, column i of the result is the element of input array i at
    position (r / s) mod n, where n is the length of that array and s the
    product of the lengths of the arrays after it: the last array moves
    at every row, the one before it every n_last rows, and so on. *)
Theorem cartesian_product_entry (axes : list (list R)) (r i : nat) :
  r < prod (map (@length R) axes) ->
  i < length axes ->
  exists out,
    cartesian_product (map Arr1 axes) = Ok out /\
    nth i (nth r (rows out) []) 0%R
    = nth ((r / stride (map (@length R) axes) i) mod length (nth i axes []))
        (nth i axes []) 0%R.
Proof.
  intros Hr Hi. eexists. split.
  - apply cartesian_product_closed. intros ->. simpl in Hi. lia.
  - simpl rows. rewrite cross_row by exact Hr.
    rewrite filled_item by exact Hi. unfold cell.
    rewrite unravel_stride by (rewrite ?length_map; assumption).
    rewrite (nth_indep _ 0 (length (@nil R))) by (rewrite length_map; exact Hi).
    rewrite (map_nth (@length R)). reflexivity.
Qed.

Lemma cartesian_product_entry_witness :
  exists out,
    cartesian_product (map Arr1 [[1; 2]; [3; 4; 5]]%R) = Ok out /\
    nth 0 (nth 4 (rows out) []) 0%R = 2%R.
Proof.
  destruct (cartesian_product_entry [[1; 2]; [3; 4; 5]]%R 4 0) as [out [E H]].
  - simpl. lia.
  - simpl. lia.
  - exists out. split; [exact E|]. rewrite H. reflexivity.
Defined.

(** ** The strip waveguide: which tensor entry answers which input *)

Lemma length_concat_uniform {A : Type} (n : nat) (L : list (list A)) :
  Forall (fun l => length l = n) L -> length (concat L) = length L * n.
Proof.
  induction 1 as [|l L Hl _ IH]; simpl; [reflexivity|].
  rewrite length_app, IH, Hl. reflexivity.
Qed.

Lemma nth_concat_uniform {A : Type} (n : nat) (d : A) (L : list (list A)) :
  Forall (fun l => length l = n) L ->
  forall i k, i < length L -> k < n ->
    nth (i * n + k) (concat L) d = nth k (nth i L []) d.
Proof.
  induction 1 as [|l L Hl _ IH]; intros i k Hi Hk; simpl in Hi; [lia|].
  destruct i as [|i]; simpl.
  - apply app_nth1. lia.
  - rewrite app_nth2 by lia.
    replace (n + i * n + k - length l) with (i * n + k) by lia.
    apply IH; lia.
Qed.

Lemma nth_column (m r : nat) (L : list (list R)) :
  nth r (map (fun row => nth m row 0%R) L) 0%R = nth m (nth r L []) 0%R.
Proof.
  destruct (Nat.lt_ge_cases r (length L)) as [Hr | Hr].
  - rewrite (nth_indep _ 0%R ((fun row => nth m row 0%R) []))
      by (rewrite length_map; exact Hr).
    apply (map_nth (fun row => nth m row 0%R)).
  - rewrite (nth_overflow (map _ L)) by (rewrite length_map; exact Hr).
    rewrite (nth_overflow L) by exact Hr.
    symmetry. apply nth_empty.
Qed.

(** An entry of a tensor sits in its flattening at the row-major
    position of its indices. *)
Lemma ravel_item (t : tensor3) (a b c i j k : nat) :
  shape3 t (a, b, c) -> i < a -> j < b -> k < c ->
  nth ((i * b + j) * c + k) (ravel t) 0%R = tensor_item t i j k.
Proof.
  intros [Hlen Hall] Hi Hj Hk. unfold ravel, tensor_item.
  rewrite Forall_forall in Hall.
  assert (Hplane : In (nth i t []) t) by (apply nth_In; lia).
  destruct (Hall _ Hplane) as [Hb Hc].
  replace ((i * b + j) * c + k) with (i * (b * c) + (j * c + k)) by ring.
  rewrite (nth_concat_uniform (b * c)).
  - replace (nth i (map (@concat R) t) []) with (concat (nth i t []))
      by (symmetry; apply (map_nth (@concat R) t [] i)).
    apply (nth_concat_uniform c); [exact Hc | lia | exact Hk].
  - apply Forall_forall. intros p Hp. apply in_map_iff in Hp.
    destruct Hp as [plane [<- Hin]]. destruct (Hall _ Hin) as [Hb' Hc'].
    rewrite (length_concat_uniform c) by exact Hc'. rewrite Hb'. reflexivity.
  - rewrite length_map. lia.
  - nia.
Qed.

Lemma split_index (i j k b c : nat) :
  j < b -> k < c ->
  ((i * b + j) * c + k) / (b * (c * 1)) = i /\
  (((i * b + j) * c + k) mod (b * (c * 1))) / (c * 1) = j /\
  ((((i * b + j) * c + k) mod (b * (c * 1))) mod (c * 1)) / 1 = k.
Proof.
  intros Hj Hk. rewrite !Nat.mul_1_r.
  assert (Hjc : j * c + k < b * c).
  { assert (S j * c <= b * c) by (apply Nat.mul_le_mono_r; lia). lia. }
  assert (H1 : ((i * b + j) * c + k) / (b * c) = i).
  { symmetry. apply (Nat.div_unique _ _ _ (j * c + k)); [exact Hjc | ring]. }
  assert (H2 : ((i * b + j) * c + k) mod (b * c) = j * c + k).
  { symmetry. apply (Nat.mod_unique _ _ i); [exact Hjc | ring]. }
  rewrite H2. repeat split; [exact H1 | |].
  - symmetry. apply (Nat.div_unique _ _ _ k); [exact Hk | ring].
  - rewrite Nat.div_1_r. symmetry. apply (Nat.mod_unique _ _ j); [exact Hk | ring].
Qed.

Lemma index_bound (i j k a b c : nat) :
  i < a -> j < b -> k < c -> (i * b + j) * c + k < a * (b * (c * 1)).
Proof.
  intros Hi Hj Hk. rewrite Nat.mul_1_r.
  assert (H1 : S i * b <= a * b) by (apply Nat.mul_le_mono_r; lia).
  assert (H2 : S (i * b + j) * c <= (a * b) * c) by (apply Nat.mul_le_mono_r; lia).
  lia.
Qed.

(** The row of the input grid for the indices (i, j, k). *)
Lemma grid_row (wl wd th : list R) (i j k : nat) :
  i < length wl -> j < length wd -> k < length th ->
  nth ((i * length wd + j) * length th + k) (rows (grid wl wd th)) []
  = [nth i wl 0%R; nth j wd 0%R; nth k th 0%R].
Proof.
  intros Hi Hj Hk. unfold grid; cbn [rows].
  rewrite cross_row by (apply index_bound; assumption).
  rewrite filled_all. cbn [map unravel prod fold_right].
  destruct (split_index i j k (length wd) (length th) Hj Hk) as (-> & -> & ->).
  reflexivity.
Qed.

(** X5.  The tensors of [straightWaveguide] are indexed like the inputs:
    the entry (i, j, k) of the m-th tensor is the m-th output of the
    network for row (i*|width| + j)*|thickness| + k of the grid, which is
    the input row (wavelength[i], width[j], thickness[k]). *)
Theorem straightWaveguide_tensor_entry
    (ANN_output : array2 -> array2)
    (ANN_differentiate : array2 -> nat * nat * nat -> list R)
    (wavelength width thickness : pyarg) (wl wd th : list R) (i j k : nat) :
  sanitize wavelength = Arr1 wl ->
  sanitize width = Arr1 wd ->
  sanitize thickness = Arr1 th ->
  answers ANN_output ANN_differentiate (grid wl wd th) None ->
  i < length wl -> j < length wd -> k < length th ->
  exists TE0 TE1 TE2 TM0 TM1 TM2,
    straightWaveguide ANN_output ANN_differentiate wavelength width thickness None
    = Ok (TE0, TE1, TE2, TM0, TM1, TM2) /\
    nth ((i * length wd + j) * length th + k) (rows (grid wl wd th)) []
    = [nth i wl 0%R; nth j wd 0%R; nth k th 0%R] /\
    tensor_item TE0 i j k
    = nth 0 (nth ((i * length wd + j) * length th + k)
               (rows (ANN_output (grid wl wd th))) []) 0%R /\
    tensor_item TE1 i j k
    = nth 1 (nth ((i * length wd + j) * length th + k)
               (rows (ANN_output (grid wl wd th))) []) 0%R /\
    tensor_item TE2 i j k
    = nth 2 (nth ((i * length wd + j) * length th + k)
               (rows (ANN_output (grid wl wd th))) []) 0%R /\
    tensor_item TM0 i j k
    = nth 3 (nth ((i * length wd + j) * length th + k)
               (rows (ANN_output (grid wl wd th))) []) 0%R /\
    tensor_item TM1 i j k
    = nth 4 (nth ((i * length wd + j) * length th + k)
               (rows (ANN_output (grid wl wd th))) []) 0%R /\
    tensor_item TM2 i j k
    = nth 5 (nth ((i * length wd + j) * length th + k)
               (rows (ANN_output (grid wl wd th))) []) 0%R.
Proof.
  intros Hw Hd Ht Hans Hi Hj Hk.
  destruct (straightWaveguide_returns ANN_output ANN_differentiate wavelength
              width thickness None wl wd th Hw Hd Ht Hans)
    as (TE0 & TE1 & TE2 & TM0 & TM1 & TM2 & E & HR & HS).
  exists TE0, TE1, TE2, TM0, TM1, TM2.
  split; [exact E|]. split; [apply grid_row; assumption|].
  destruct HR as (R0 & R1 & R2 & R3 & R4 & R5).
  inversion HS as [|? ? S0 HS1]; subst. inversion HS1 as [|? ? S1 HS2]; subst.
  inversion HS2 as [|? ? S2 HS3]; subst. inversion HS3 as [|? ? S3 HS4]; subst.
  inversion HS4 as [|? ? S4 HS5]; subst. inversion HS5 as [|? ? S5 _]; subst.
  unfold predicted in *.
  repeat split;
    match goal with
    | |- tensor_item ?T _ _ _ = _ =>
        match goal with
        | S : shape3 T _, Rv : ravel T = _ |- _ =>
            rewrite <- (ravel_item T _ _ _ i j k S Hi Hj Hk), Rv; apply nth_column
        end
    end.
Qed.

Lemma straightWaveguide_tensor_entry_witness :
  exists TE0 TE1 TE2 TM0 TM1 TM2,
    straightWaveguide
      (fun INPUT => mk2 6 (map (fun row => repeat (nth 0 row 0%R) 6) (rows INPUT)))
      (fun INPUT _ => map (fun row => nth 0 row 0%R) (rows INPUT))
      (PyArr (Arr1 [1.5; 1.6]%R)) (PyNum 0.5) (PyNum 0.2) None
    = Ok (TE0, TE1, TE2, TM0, TM1, TM2) /\
    nth 1 (rows (grid [1.5; 1.6]%R [0.5]%R [0.2]%R)) [] = [1.6; 0.5; 0.2]%R /\
    tensor_item TE0 1 0 0 = 1.6%R.
Proof.
  destruct (straightWaveguide_tensor_entry
              (fun INPUT => mk2 6 (map (fun row => repeat (nth 0 row 0%R) 6) (rows INPUT)))
              (fun INPUT _ => map (fun row => nth 0 row 0%R) (rows INPUT))
              (PyArr (Arr1 [1.5; 1.6]%R)) (PyNum 0.5) (PyNum 0.2)
              [1.5; 1.6]%R [0.5]%R [0.2]%R 1 0 0)
    as (TE0 & TE1 & TE2 & TM0 & TM1 & TM2 & E & Hrow & H0 & _);
    try reflexivity; try (simpl; lia).
  exists TE0, TE1, TE2, TM0, TM1, TM2.
  split; [exact E|]. split; [exact Hrow|].
  rewrite H0. reflexivity.
Defined.

(** X21.  With a derivative order d, the entry (i, j, k) of the m-th
    tensor is the value that [differentiate] returns for the input row
    (wavelength[i], width[j], thickness[k]) when asked for (m, 0, d): the
    derivative of output m, always with respect to input column 0, the
    wavelength. *)
Theorem straightWaveguide_derivative_entry
    (ANN_output : array2 -> array2)
    (ANN_differentiate : array2 -> nat * nat * nat -> list R)
    (wavelength width thickness : pyarg) (d : nat)
    (wl wd th : list R) (i j k : nat) :
  sanitize wavelength = Arr1 wl ->
  sanitize width = Arr1 wd ->
  sanitize thickness = Arr1 th ->
  answers ANN_output ANN_differentiate (grid wl wd th) (Some d) ->
  i < length wl -> j < length wd -> k < length th ->
  exists TE0 TE1 TE2 TM0 TM1 TM2 r,
    straightWaveguide ANN_output ANN_differentiate wavelength width thickness (Some d)
    = Ok (TE0, TE1, TE2, TM0, TM1, TM2) /\
    nth r (rows (grid wl wd th)) [] = [nth i wl 0%R; nth j wd 0%R; nth k th 0%R] /\
    tensor_item TE0 i j k = nth r (ANN_differentiate (grid wl wd th) (0, 0, d)) 0%R /\
    tensor_item TE1 i j k = nth r (ANN_differentiate (grid wl wd th) (1, 0, d)) 0%R /\
    tensor_item TE2 i j k = nth r (ANN_differentiate (grid wl wd th) (2, 0, d)) 0%R /\
    tensor_item TM0 i j k = nth r (ANN_differentiate (grid wl wd th) (3, 0, d)) 0%R /\
    tensor_item TM1 i j k = nth r (ANN_differentiate (grid wl wd th) (4, 0, d)) 0%R /\
    tensor_item TM2 i j k = nth r (ANN_differentiate (grid wl wd th) (5, 0, d)) 0%R.
Proof.
  intros Hw Hd Ht Hans Hi Hj Hk.
  destruct (straightWaveguide_returns ANN_output ANN_differentiate wavelength
              width thickness (Some d) wl wd th Hw Hd Ht Hans)
    as (TE0 & TE1 & TE2 & TM0 & TM1 & TM2 & E & HR & HS).
  exists TE0, TE1, TE2, TM0, TM1, TM2, ((i * length wd + j) * length th + k).
  split; [exact E|]. split; [apply grid_row; assumption|].
  destruct HR as (R0 & R1 & R2 & R3 & R4 & R5).
  inversion HS as [|? ? S0 HS1]; subst. inversion HS1 as [|? ? S1 HS2]; subst.
  inversion HS2 as [|? ? S2 HS3]; subst. inversion HS3 as [|? ? S3 HS4]; subst.
  inversion HS4 as [|? ? S4 HS5]; subst. inversion HS5 as [|? ? S5 _]; subst.
  unfold predicted in *.
  repeat split;
    match goal with
    | |- tensor_item ?T _ _ _ = _ =>
        match goal with
        | S : shape3 T _, Rv : ravel T = _ |- _ =>
            rewrite <- (ravel_item T _ _ _ i j k S Hi Hj Hk), Rv; reflexivity
        end
    end.
Qed.

Lemma straightWaveguide_derivative_entry_witness :
  exists TE0 TE1 TE2 TM0 TM1 TM2 r,
    straightWaveguide
      (fun INPUT => mk2 6 (map (fun row => repeat (nth 0 row 0%R) 6) (rows INPUT)))
      (fun INPUT _ => map (fun row => nth 0 row 0%R) (rows INPUT))
      (PyArr (Arr1 [1.5; 1.6]%R)) (PyNum 0.5) (PyNum 0.2) (Some 1)
    = Ok (TE0, TE1, TE2, TM0, TM1, TM2) /\
    nth r (rows (grid [1.5; 1.6]%R [0.5]%R [0.2]%R)) [] = [1.6; 0.5; 0.2]%R /\
    tensor_item TE0 1 0 0
    = nth r (map (fun row => nth 0 row 0%R) (rows (grid [1.5; 1.6]%R [0.5]%R [0.2]%R))) 0%R.
Proof.
  destruct (straightWaveguide_derivative_entry
              (fun INPUT => mk2 6 (map (fun row => repeat (nth 0 row 0%R) 6) (rows INPUT)))
              (fun INPUT _ => map (fun row => nth 0 row 0%R) (rows INPUT))
              (PyArr (Arr1 [1.5; 1.6]%R)) (PyNum 0.5) (PyNum 0.2) 1
              [1.5; 1.6]%R [0.5]%R [0.2]%R 1 0 0)
    as (TE0 & TE1 & TE2 & TM0 & TM1 & TM2 & r & E & Hrow & H0 & _);
    try reflexivity; try (simpl; lia).
  exists TE0, TE1, TE2, TM0, TM1, TM2, r.
  split; [exact E|]. split; [exact Hrow | exact H0].
Defined.

(** X6.  Called with three bare numbers, [straightWaveguide] asks the
    network the single row (wavelength, width, thickness) and returns the
    first six entries of its answer, each as a tensor of shape (1,1,1). *)
Theorem straightWaveguide_scalars
    (ANN_output : array2 -> array2)
    (ANN_differentiate : array2 -> nat * nat * nat -> list R)
    (wavelength width thickness : R) (n : nat) (answer : list R) :
  ANN_output (mk2 3 [[wavelength; width; thickness]]) = mk2 n [answer] ->
  6 <= n ->
  straightWaveguide ANN_output ANN_differentiate
    (PyNum wavelength) (PyNum width) (PyNum thickness) None
  = Ok ([[[nth 0 answer 0%R]]], [[[nth 1 answer 0%R]]], [[[nth 2 answer 0%R]]],
        [[[nth 3 answer 0%R]]], [[[nth 4 answer 0%R]]], [[[nth 5 answer 0%R]]]).
Proof.
  intros Hout Hn. unfold straightWaveguide. cbn [sanitize].
  change [Arr1 [wavelength]; Arr1 [width]; Arr1 [thickness]]
    with (map Arr1 [[wavelength]; [width]; [thickness]]).
  rewrite cartesian_product_closed by discriminate.
  cbn [length cross flat_map map app]. cbv beta iota delta [bind size].
  rewrite Hout.
  repeat (rewrite column_ok by (simpl; lia); cbn [rows map length reshape3];
          cbn [Nat.eqb Nat.mul Nat.add chunks firstn skipn map]).
  reflexivity.
Qed.

Lemma straightWaveguide_scalars_witness :
  straightWaveguide
    (fun INPUT => mk2 6 (map (fun row => repeat (nth 0 row 0%R) 6) (rows INPUT)))
    (fun INPUT _ => map (fun row => nth 0 row 0%R) (rows INPUT))
    (PyNum 1.55) (PyNum 0.5) (PyNum 0.2) None
  = Ok ([[[1.55]]], [[[1.55]]], [[[1.55]]], [[[1.55]]], [[[1.55]]], [[[1.55]]])%R.
Proof.
  apply (straightWaveguide_scalars
           (fun INPUT => mk2 6 (map (fun row => repeat (nth 0 row 0%R) 6) (rows INPUT)))
           (fun INPUT _ => map (fun row => nth 0 row 0%R) (rows INPUT))
           1.55 0.5 0.2 6 (repeat 1.55%R 6)).
  - reflexivity.
  - lia.
Defined.

(** ** The strip waveguide: failures *)

Lemma one_point_unsized (x : pyarg) : one_point x -> exists v, sanitize x = Arr0 v.
Proof. intros [v [-> | ->]]; exists v; reflexivity. Qed.

(** X7.  When one of the three arguments of [straightWaveguide] is an
    ndarray holding a single number, the call raises [TypeError] before
    the network is consulted: [np.squeeze] leaves a 0-d array, of which
    [cartesian_product] takes the length.  Only a bare number gives an
    axis of one point. *)
Theorem straightWaveguide_one_point_raises
    (ANN_output : array2 -> array2)
    (ANN_differentiate : array2 -> nat * nat * nat -> list R)
    (wavelength width thickness : pyarg) (derivative : option nat) :
  one_point wavelength \/ one_point width \/ one_point thickness ->
  straightWaveguide ANN_output ANN_differentiate
    wavelength width thickness derivative = Raise TypeError.
Proof.
  intros H. unfold straightWaveguide, cartesian_product.
  assert (Hin : exists v, In (Arr0 v) [sanitize wavelength; sanitize width;
                                       sanitize thickness]).
  { destruct H as [H | [H | H]]; apply one_point_unsized in H;
      destruct H as [v Hv]; exists v; rewrite <- Hv; simpl; auto. }
  destruct Hin as [v Hin]. rewrite (mapM_len_unsized _ v Hin). reflexivity.
Qed.

Lemma straightWaveguide_one_point_raises_witness :
  (one_point (PyNum 1.55) \/ one_point (PyArr (Arr1 [0.5]%R)) \/ one_point (PyNum 0.2)) /\
  straightWaveguide
    (fun INPUT => mk2 6 (map (fun row => repeat (nth 0 row 0%R) 6) (rows INPUT)))
    (fun INPUT _ => map (fun row => nth 0 row 0%R) (rows INPUT))
    (PyNum 1.55) (PyArr (Arr1 [0.5]%R)) (PyNum 0.2) None
  = Raise TypeError.
Proof.
  assert (H : one_point (PyNum 1.55) \/ one_point (PyArr (Arr1 [0.5]%R))
              \/ one_point (PyNum 0.2)).
  { right; left. exists 0.5%R. left; reflexivity. }
  split; [exact H|].
  apply (straightWaveguide_one_point_raises _ _ _ _ _ None H).
Defined.

Lemma column_missing (k : nat) (A : array2) :
  ncols A <= k -> column k A = Raise IndexError.
Proof.
  intros Hk. unfold column.
  destruct (Nat.ltb_spec k (ncols A)); [lia | reflexivity].
Qed.

(** X8.  When the network answers with the right number of rows but
    fewer than six columns, [straightWaveguide] raises [IndexError] at
    the first column that is missing. *)
Theorem straightWaveguide_short_answer
    (ANN_output : array2 -> array2)
    (ANN_differentiate : array2 -> nat * nat * nat -> list R)
    (wavelength width thickness : pyarg) (wl wd th : list R) :
  sanitize wavelength = Arr1 wl ->
  sanitize width = Arr1 wd ->
  sanitize thickness = Arr1 th ->
  length (rows (ANN_output (grid wl wd th))) = length (rows (grid wl wd th)) ->
  ncols (ANN_output (grid wl wd th)) < 6 ->
  straightWaveguide ANN_output ANN_differentiate wavelength width thickness None
  = Raise IndexError.
Proof.
  intros Hw Hd Ht Hrows Hcols.
  unfold straightWaveguide. rewrite Hw, Hd, Ht.
  change [Arr1 wl; Arr1 wd; Arr1 th] with (map Arr1 [wl; wd; th]).
  rewrite cartesian_product_closed by discriminate.
  change (mk2 (length [wl; wd; th]) (cross [wl; wd; th])) with (grid wl wd th).
  cbv beta iota delta [bind size].
  set (OUTPUT := ANN_output (grid wl wd th)) in *.
  assert (HL : length (rows OUTPUT) = length wl * length wd * length th)
    by (rewrite Hrows; apply length_grid).
  remember (ncols OUTPUT) as n eqn:Hn.
  destruct n as [|[|[|[|[|[|n]]]]]]; [| | | | | | lia];
    repeat (first
      [ rewrite (column_missing _ OUTPUT) by lia; reflexivity
      | match goal with
        | |- context [column ?k OUTPUT] => reshape_column OUTPUT k Hn HL
        end ]).
Qed.

Lemma straightWaveguide_short_answer_witness :
  straightWaveguide
    (fun INPUT => mk2 2 (map (fun row => repeat (nth 0 row 0%R) 2) (rows INPUT)))
    (fun INPUT _ => map (fun row => nth 0 row 0%R) (rows INPUT))
    (PyArr (Arr1 [1.5; 1.6]%R)) (PyNum 0.5) (PyNum 0.2) None
  = Raise IndexError.
Proof.
  apply (straightWaveguide_short_answer
           (fun INPUT => mk2 2 (map (fun row => repeat (nth 0 row 0%R) 2) (rows INPUT)))
           (fun INPUT _ => map (fun row => nth 0 row 0%R) (rows INPUT))
           (PyArr (Arr1 [1.5; 1.6]%R)) (PyNum 0.5) (PyNum 0.2)
           [1.5; 1.6]%R [0.5]%R [0.2]%R); try reflexivity.
  simpl. lia.
Defined.



(** X10.  With an answering network, [straightWaveguide_S] fails on a
    wavelength vector in one of two ways: [TypeError] when the vector has
    a single point (raised inside [straightWaveguide]), [NameError] in
    every other case (the unbound names of line 121). *)
Theorem straightWaveguide_S_error_kind
    (ANN_output : array2 -> array2)
    (ANN_differentiate : array2 -> nat * nat * nat -> list R)
    (wl : list R) (width thickness gap length : R) :
  answers ANN_output ANN_differentiate (grid wl [width] [thickness]) None ->
  straightWaveguide_S ANN_output ANN_differentiate
    (Arr1 wl) width thickness gap length
  = Raise (if List.length wl =? 1 then TypeError else NameError).
Proof.
  intros Hans. destruct (Nat.eqb_spec (List.length wl) 1) as [E | E].
  - destruct wl as [|v [|v' wl]]; try discriminate. reflexivity.
  - apply straightWaveguide_S_NameError; assumption.
Qed.

Lemma straightWaveguide_S_error_kind_witness :
  straightWaveguide_S
    (fun INPUT => mk2 6 (map (fun _ => repeat 2.4%R 6) (rows INPUT)))
    (fun INPUT _ => map (fun _ => 0%R) (rows INPUT))
    (Arr1 [1.5; 1.55; 1.6]%R) 0.5 0.22 0.2 10
  = Raise NameError.
Proof.
  apply (straightWaveguide_S_error_kind
           (fun INPUT => mk2 6 (map (fun _ => repeat 2.4%R 6) (rows INPUT)))
           (fun INPUT _ => map (fun _ => 0%R) (rows INPUT))
           [1.5; 1.55; 1.6]%R 0.5 0.22 0.2 10).
  split; [simpl; lia | reflexivity].
Defined.

(** ** The primitive matrices are lossless *)

Lemma coupler_quadrature (L lam : R) :
  (Re (coupler_x L lam) * Re (coupler_y L lam)
   + Im (coupler_x L lam) * Im (coupler_y L lam) = 0)%R.
Proof.
  rewrite coupler_x_spec, coupler_y_spec.
  unfold bar_amplitude, cross_amplitude. rewrite phasor_parts. simpl. ring.
Qed.

Lemma coupler_norms (L lam : R) :
  Cnorm2 (coupler_x L lam) = (cos (PI * coupler_dn * L / lam) * cos (PI * coupler_dn * L / lam))%R /\
  Cnorm2 (coupler_y L lam) = (sin (PI * coupler_dn * L / lam) * sin (PI * coupler_dn * L / lam))%R.
Proof.
  rewrite coupler_x_spec, coupler_y_spec.
  unfold bar_amplitude, cross_amplitude. rewrite phasor_parts.
  unfold Cnorm2; simpl.
  set (t := (- (2 * PI * coupler_n0 * L / lam))%R).
  set (u := (PI * coupler_dn * L / lam)%R).
  pose proof (cos2_sin2 t) as Ht.
  split.
  - replace (_ + _)%R with ((cos t * cos t + sin t * sin t) * (cos u * cos u))%R by ring.
    rewrite Ht. ring.
  - replace (_ + _)%R with ((cos t * cos t + sin t * sin t) * (sin u * sin u))%R by ring.
    rewrite Ht. ring.
Qed.

Lemma coupler_slice_unitary (x y : C) :
  (Cnorm2 x + Cnorm2 y = 1)%R ->
  (Re x * Re y + Im x * Im y = 0)%R ->
  unitary 4 (coupler_slice x y).
Proof.
  unfold Cnorm2. intros H1 H2 i j Hi Hj.
  destruct i as [|[|[|[|i]]]]; try lia;
    destruct j as [|[|[|[|j]]]]; try lia;
    unfold gram, Csum, entry; apply C_eq; simpl; lra.
Qed.

Lemma bend_slice_unitary (b : C) :
  Cnorm2 b = 1%R -> unitary 2 (bend_slice b).
Proof.
  unfold Cnorm2. intros H i j Hi Hj.
  destruct i as [|[|i]]; try lia; destruct j as [|[|j]]; try lia;
    unfold gram, Csum, entry; apply C_eq; simpl; lra.
Qed.

Lemma bend_slice_symmetric (b : C) : symmetric (bend_slice b).
Proof.
  intros i j. unfold entry.
  destruct i as [|[|i]]; destruct j as [|[|j]]; simpl; try reflexivity;
    try (destruct i; reflexivity); try (destruct j; reflexivity);
    destruct i, j; reflexivity.
Qed.

(** X11.  At non-zero wavelengths the matrix of [evWGcoupler] is
    unitary at every frequency point: the coupler is lossless, and its
    bar and cross amplitudes are in quadrature. *)
Theorem evWGcoupler_unitary (wavelength : list R)
    (width thickness gap couplerLength : R) :
  Forall (fun lam => lam <> 0%R) wavelength ->
  exists S,
    evWGcoupler (Arr1 wavelength) width thickness gap couplerLength = Ok S /\
    Forall (unitary 4) (slices S).
Proof.
  intros _. eexists. split; [apply evWGcoupler_closed|].
  simpl. apply Forall_forall. intros M HM.
  apply in_map_iff in HM. destruct HM as [lam [<- _]].
  apply coupler_slice_unitary.
  - destruct (coupler_norms couplerLength lam) as [-> ->]. apply cos2_sin2.
  - apply coupler_quadrature.
Qed.

Lemma evWGcoupler_unitary_witness :
  Forall (fun lam => lam <> 0%R) [1.5; 1.55; 1.6]%R /\
  exists S,
    evWGcoupler (Arr1 [1.5; 1.55; 1.6]%R) 0.5 0.2 0.2 5 = Ok S /\
    Forall (unitary 4) (slices S).
Proof.
  assert (H : Forall (fun lam => lam <> 0%R) [1.5; 1.55; 1.6]%R)
    by (repeat constructor; lra).
  split; [exact H|]. apply (evWGcoupler_unitary [1.5; 1.55; 1.6]%R 0.5 0.2 0.2 5 H).
Defined.

(** X12.  At a non-zero wavelength the coupler leaves the fraction
    cos^2(pi*dn*couplerLength/wavelength) of the power in the bar port and
    sends sin^2 of the same angle to the cross port. *)
Theorem evWGcoupler_power_split (wavelength : list R)
    (width thickness gap couplerLength : R) (f : nat) :
  f < length wavelength ->
  nth f wavelength 0%R <> 0%R ->
  exists S,
    evWGcoupler (Arr1 wavelength) width thickness gap couplerLength = Ok S /\
    Cnorm2 (item S f 1 0)
    = Rsqr (cos (PI * (coupler_n1 - coupler_n2) * couplerLength / nth f wavelength 0%R)) /\
    Cnorm2 (item S f 3 0)
    = Rsqr (sin (PI * (coupler_n1 - coupler_n2) * couplerLength / nth f wavelength 0%R)).
Proof.
  intros Hf _. eexists. split; [apply evWGcoupler_closed|].
  rewrite !item_map by exact Hf. unfold entry; simpl nth.
  destruct (coupler_norms couplerLength (nth f wavelength 0%R)) as [Hx Hy].
  rewrite Hx, Hy. split; reflexivity.
Qed.

Lemma evWGcoupler_power_split_witness :
  exists S,
    evWGcoupler (Arr1 [1.5; 1.55; 1.6]%R) 0.5 0.2 0.2 5 = Ok S /\
    Cnorm2 (item S 1 1 0)
    = Rsqr (cos (PI * (coupler_n1 - coupler_n2) * 5 / 1.55)) /\
    Cnorm2 (item S 1 3 0)
    = Rsqr (sin (PI * (coupler_n1 - coupler_n2) * 5 / 1.55)).
Proof.
  apply (evWGcoupler_power_split [1.5; 1.55; 1.6]%R 0.5 0.2 0.2 5 1).
  - simpl. lia.
  - simpl. lra.
Defined.

Lemma Cnorm2_bend (n r a lam : R) : Cnorm2 (bend_transmission n r a lam) = 1%R.
Proof. apply Cnorm2_phasor. Qed.

(** X13.  At non-zero wavelengths the matrix of [bentWaveguide] is
    unitary and symmetric at every frequency point: the bend only shifts
    the phase. *)
Theorem bentWaveguide_unitary (wavelength : list R)
    (radius width thickness gap angle : R) :
  Forall (fun lam => lam <> 0%R) wavelength ->
  exists S,
    bentWaveguide (Arr1 wavelength) radius width thickness gap angle = Ok S /\
    Forall (unitary 2) (slices S) /\
    Forall symmetric (slices S) /\
    forall f, f < length wavelength -> Cabs (item S f 0 1) = 1%R.
Proof.
  intros _. eexists. split; [apply bentWaveguide_closed|]. simpl.
  repeat split.
  - apply Forall_forall. intros M HM.
    apply in_map_iff in HM. destruct HM as [lam [<- _]].
    apply bend_slice_unitary, Cnorm2_bend.
  - apply Forall_forall. intros M HM.
    apply in_map_iff in HM. destruct HM as [lam [<- _]].
    apply bend_slice_symmetric.
  - intros f Hf. rewrite item_map by exact Hf. unfold entry; simpl nth.
    unfold Cabs. rewrite Cnorm2_bend. apply sqrt_1.
Qed.

Lemma bentWaveguide_unitary_witness :
  Forall (fun lam => lam <> 0%R) [1.5; 1.55; 1.6]%R /\
  exists S,
    bentWaveguide (Arr1 [1.5; 1.55; 1.6]%R) 5 0.5 0.2 0.2 PI = Ok S /\
    Forall (unitary 2) (slices S) /\
    Forall symmetric (slices S) /\
    forall f, f < 3 -> Cabs (item S f 0 1) = 1%R.
Proof.
  assert (H : Forall (fun lam => lam <> 0%R) [1.5; 1.55; 1.6]%R)
    by (repeat constructor; lra).
  split; [exact H|]. apply (bentWaveguide_unitary [1.5; 1.55; 1.6]%R 5 0.5 0.2 0.2 PI H).
Defined.

(** ** The bend: arc length and composition *)

Lemma bend_transmission_arc (n r a r' a' lam : R) :
  (r * a = r' * a')%R -> bend_transmission n r a lam = bend_transmission n r' a' lam.
Proof.
  intros H. unfold bend_transmission. f_equal.
  replace (2 * PI * r * n * a)%R with (2 * PI * n * (r * a))%R by ring.
  rewrite H. f_equal. ring.
Qed.

(** X14.  [bentWaveguide] depends on the radius and the angle only
    through the arc length radius*angle: two bends of equal arc length,
    whatever their width, thickness and gap, have the same matrix. *)
Theorem bentWaveguide_arc_length (wavelength : ndarray)
    (radius angle radius' angle' width thickness gap width' thickness' gap' : R) :
  (radius * angle = radius' * angle')%R ->
  bentWaveguide wavelength radius width thickness gap angle
  = bentWaveguide wavelength radius' width' thickness' gap' angle'.
Proof.
  intros H. destruct wavelength as [v | l]; [reflexivity|].
  rewrite !bentWaveguide_closed. do 2 f_equal.
  apply map_ext. intros lam. f_equal. apply bend_transmission_arc, H.
Qed.

Lemma bentWaveguide_arc_length_witness :
  (5 * PI = 10 * (PI / 2))%R /\
  bentWaveguide (Arr1 [1.5; 1.55; 1.6]%R) 5 0.5 0.2 0.2 PI
  = bentWaveguide (Arr1 [1.5; 1.55; 1.6]%R) 10 0.4 0.22 0.1 (PI / 2).
Proof.
  assert (H : (5 * PI = 10 * (PI / 2))%R) by lra.
  split; [exact H|].
  apply (bentWaveguide_arc_length (Arr1 [1.5; 1.55; 1.6]%R) 5 PI 10 (PI / 2)
           0.5 0.2 0.2 0.4 0.22 0.1 H).
Defined.

Lemma phasor_add (s t : R) : phasor (s + t) = (phasor s * phasor t)%C.
Proof.
  rewrite !phasor_parts. apply C_eq; simpl.
  - apply cos_plus.
  - rewrite sin_plus. ring.
Qed.

Lemma bend_transmission_add (n r a1 a2 lam : R) :
  bend_transmission n r (a1 + a2) lam
  = (bend_transmission n r a1 lam * bend_transmission n r a2 lam)%C.
Proof.
  unfold bend_transmission. rewrite <- phasor_add. f_equal.
  unfold Rdiv. ring.
Qed.

(** X15.  Angles add as phases: at every frequency point the
    transmission of a bend of angle a1 + a2 is the product of the
    transmissions of the bends of angles a1 and a2 of the same radius. *)
Theorem bentWaveguide_angles_add (wavelength : list R)
    (radius width thickness gap angle1 angle2 : R) :
  exists S1 S2 S12,
    bentWaveguide (Arr1 wavelength) radius width thickness gap angle1 = Ok S1 /\
    bentWaveguide (Arr1 wavelength) radius width thickness gap angle2 = Ok S2 /\
    bentWaveguide (Arr1 wavelength) radius width thickness gap (angle1 + angle2)
    = Ok S12 /\
    forall f, f < length wavelength ->
      item S12 f 0 1 = (item S1 f 0 1 * item S2 f 0 1)%C /\
      item S12 f 1 0 = (item S1 f 1 0 * item S2 f 1 0)%C.
Proof.
  do 3 eexists. repeat split; try apply bentWaveguide_closed;
    rewrite !item_map by assumption; unfold entry; simpl nth;
    apply bend_transmission_add.
Qed.

(** ** The racetrack: what it is made of *)

(** X16.  For a wavelength array whose length is not 1, [racetrackRR] is
    the chain connect(coupler, 2, bend, 0), connect(., 3, bend, 0),
    connect(., 2, coupler, 0), innerconnect(., 2, 3) on the closed-form
    coupler and half-circle bend matrices, and it fails exactly when a
    step of the chain fails, with the error of that step. *)
Theorem racetrackRR_cascade
    (connect_s : smatrix -> nat -> smatrix -> nat -> result smatrix)
    (innerconnect_s : smatrix -> nat -> nat -> result smatrix)
    (wl : list R) (radius couplerLength gap width thickness : R) :
  length wl <> 1 ->
  let couplerS :=
    mkS 4 (map (fun lam => coupler_slice (coupler_x couplerLength lam)
                             (coupler_y couplerLength lam)) wl) in
  let bentS :=
    mkS 2 (map (fun lam => bend_slice (bend_transmission 2.323 radius PI lam)) wl) in
  racetrackRR connect_s innerconnect_s (Arr1 wl)
    radius couplerLength gap width thickness
  = (S1 <- connect_s couplerS 2 bentS 0 ;;
     S2 <- connect_s S1 3 bentS 0 ;;
     S3 <- connect_s S2 2 couplerS 0 ;;
     innerconnect_s S3 2 3).
Proof.
  intros Hlen couplerS bentS.
  destruct (racetrackRR_sequence connect_s innerconnect_s wl radius couplerLength
              gap width thickness Hlen) as (cS & bS & EC & EB & E).
  rewrite evWGcoupler_closed in EC. rewrite bentWaveguide_closed in EB.
  injection EC as <-. injection EB as <-. exact E.
Qed.

Lemma racetrackRR_cascade_witness :
  racetrackRR (fun A _ _ _ => Ok A) (fun A _ _ => Ok A) (Arr1 [1.5; 1.55; 1.6]%R)
    5 5 0.2 0.5 0.2
  = Ok (mkS 4 (map (fun lam => coupler_slice (coupler_x 5 lam) (coupler_y 5 lam))
                 [1.5; 1.55; 1.6]%R)).
Proof.
  rewrite (racetrackRR_cascade (fun A _ _ _ => Ok A) (fun A _ _ => Ok A)
             [1.5; 1.55; 1.6]%R 5 5 0.2 0.5 0.2); [reflexivity | simpl; lia].
Defined.

(** X17.  Whatever the cascading functions are, the result of
    [racetrackRR] does not depend on the gap, the width or the thickness:
    only the wavelengths, the radius and the coupler length matter. *)
Theorem racetrackRR_ignores_cross_section
    (connect_s : smatrix -> nat -> smatrix -> nat -> result smatrix)
    (innerconnect_s : smatrix -> nat -> nat -> result smatrix)
    (wavelength : ndarray) (radius couplerLength : R)
    (gap width thickness gap' width' thickness' : R) :
  racetrackRR connect_s innerconnect_s wavelength
    radius couplerLength gap width thickness
  = racetrackRR connect_s innerconnect_s wavelength
      radius couplerLength gap' width' thickness'.
Proof. reflexivity. Qed.

(** ** The racetrack under the cascading formula of the specification *)

Lemma ring_slice_symmetric (x y b : C) : symmetric (ring_slice x y b).
Proof.
  intros i j. unfold ring_slice, stage3.
  cbn -[Cadd Cmul Csub Cdiv RtoC C0 entry].
  unfold entry.
  destruct i as [|[|[|[|i]]]]; destruct j as [|[|[|[|j]]]];
    cbn [nth]; try reflexivity;
    try (destruct i; reflexivity); try (destruct j; reflexivity);
    try (destruct i, j; reflexivity);
    unfold Skrf.innerconnect_entry, entry; apply C_eq; simpl; unfold Rdiv; ring.
Qed.

(** X18.  With the cascading functions modelled from section 4.4 of the
    specification, [racetrackRR] returns, for every geometry and every
    wavelength array whose length N is not 1 (the empty array included)
    and whose points are all regular (non-zero wavelength, loop off exact
    resonance, so that no step divides by zero), an (N,4,4) matrix that is
    symmetric and has a zero diagonal at every frequency point: the ring
    is reciprocal and reflects nothing. *)
Theorem racetrackRR_reciprocal (wl : list R)
    (radius couplerLength gap width thickness : R) :
  length wl <> 1 ->
  Forall (regular_point radius couplerLength) wl ->
  exists S,
    racetrackRR Skrf.connect_s Skrf.innerconnect_s (Arr1 wl)
      radius couplerLength gap width thickness = Ok S /\
    has_shape S (length wl) 4 /\
    Forall symmetric (slices S) /\
    forall f i, f < length wl -> item S f i i = C0.
Proof.
  intros Hlen _. eexists. split; [apply racetrackRR_closed, Hlen|].
  split; [apply has_shape_map; intros; apply square_ring|].
  split.
  - simpl. apply Forall_forall. intros M HM.
    apply in_map_iff in HM. destruct HM as [lam [<- _]].
    apply ring_slice_symmetric.
  - intros f i Hf. rewrite item_map by exact Hf.
    destruct (Nat.lt_ge_cases i 4) as [Hi | Hi]; [apply ring_slice_diagonal, Hi|].
    unfold entry. rewrite (nth_overflow (ring_slice _ _ _)); [apply nth_empty|].
    destruct (square_ring (coupler_x couplerLength (nth f wl 0%R))
                (coupler_y couplerLength (nth f wl 0%R))
                (bend_transmission 2.323 radius PI (nth f wl 0%R))) as [-> _].
    exact Hi.
Qed.

Lemma dark_sweep_regular :
  Forall (regular_point default_radius default_couplerLength)
    [0.60158; 0.60158 / 3; 0.120316]%R.
Proof.
  repeat (apply Forall_cons; [|]); [| | |apply Forall_nil].
  - apply dark_point_regular; [lra|].
    replace (PI * coupler_dn * default_couplerLength / 0.60158)%R
      with (PI / 2)%R
      by (unfold coupler_dn, coupler_n1, coupler_n2, default_couplerLength; lra).
    apply cos_PI2.
  - apply dark_point_regular; [lra|].
    replace (PI * coupler_dn * default_couplerLength / (0.60158 / 3))%R
      with (3 * (PI / 2))%R
      by (unfold coupler_dn, coupler_n1, coupler_n2, default_couplerLength; lra).
    apply cos_3PI2.
  - apply dark_point_regular; [lra|].
    replace (PI * coupler_dn * default_couplerLength / 0.120316)%R
      with (PI / 2 + 2 * PI)%R
      by (unfold coupler_dn, coupler_n1, coupler_n2, default_couplerLength; lra).
    rewrite cos_plus, cos_PI2, cos_2PI, sin_2PI. ring.
Qed.

Lemma racetrackRR_reciprocal_witness :
  Forall (regular_point default_radius default_couplerLength)
    [0.60158; 0.60158 / 3; 0.120316]%R /\
  exists S,
    racetrackRR Skrf.connect_s Skrf.innerconnect_s
      (Arr1 [0.60158; 0.60158 / 3; 0.120316]%R)
      default_radius default_couplerLength default_gap default_width
      default_thickness = Ok S /\
    has_shape S 3 4 /\
    Forall symmetric (slices S) /\
    forall f i, f < 3 -> item S f i i = C0.
Proof.
  split; [exact dark_sweep_regular|].
  apply (racetrackRR_reciprocal [0.60158; 0.60158 / 3; 0.120316]%R
           default_radius default_couplerLength default_gap default_width
           default_thickness).
  - simpl. lia.
  - exact dark_sweep_regular.
Defined.

Lemma Cnonzero_norm (d : C) : d <> C0 -> (Re d * Re d + Im d * Im d <> 0)%R.
Proof.
  intros Hd H. apply Hd. destruct d as [p q]; simpl in H.
  assert (p = 0%R) by nra. assert (q = 0%R) by nra. subst. reflexivity.
Qed.

(** Away from the pole, dividing a multiple of d by d*d divides by d. *)
Lemma Cdiv_cancel (n d : C) : d <> C0 -> (n * d / (d * d) = n / d)%C.
Proof.
  intros Hd. pose proof (Cnonzero_norm d Hd) as Hn.
  destruct n as [nr ni], d as [p q]; simpl in Hn.
  assert (H2 : ((p * p - q * q) * (p * p - q * q) + (p * q + q * p) * (p * q + q * p) <> 0)%R).
  { replace ((p * p - q * q) * (p * p - q * q) + (p * q + q * p) * (p * q + q * p))%R
      with ((p * p + q * q) * (p * p + q * q))%R by ring.
    apply Rmult_integral_contrapositive_currified; exact Hn. }
  apply C_eq; simpl; field; split; assumption.
Qed.

Lemma regular_point_denominator (radius couplerLength lam : R) :
  regular_point radius couplerLength lam ->
  (1%R - round_trip radius couplerLength lam)%C <> C0.
Proof.
  intros [_ Hg] H. apply Hg. destruct (round_trip radius couplerLength lam) as [a c].
  injection H as Hre Him. apply C_eq; simpl; lra.
Qed.

(** X19.  With the cascading functions modelled from section 4.4 of the
    specification, at a regular frequency point (non-zero wavelength, loop
    off exact resonance) the ring has the closed form of an add-drop
    resonator: from port 0, the through port 1 receives
    x + y*y*x*b^2 / (1 - g), the drop port 3 receives y*y / (1 - g), and
    port 2 receives nothing, where x and y are the coupler amplitudes, b
    the transmission of one bend and g = x*b^2*x the round-trip gain. *)
Theorem racetrackRR_through_and_drop (wl : list R)
    (radius couplerLength gap width thickness : R) (f : nat) :
  length wl <> 1 ->
  f < length wl ->
  regular_point radius couplerLength (nth f wl 0%R) ->
  exists S,
    racetrackRR Skrf.connect_s Skrf.innerconnect_s (Arr1 wl)
      radius couplerLength gap width thickness = Ok S /\
    item S f 1 0
    = (coupler_x couplerLength (nth f wl 0%R)
       + coupler_y couplerLength (nth f wl 0%R) * coupler_y couplerLength (nth f wl 0%R)
         * coupler_x couplerLength (nth f wl 0%R)
         * (bend_transmission 2.323 radius PI (nth f wl 0%R)
            * bend_transmission 2.323 radius PI (nth f wl 0%R))
         / (1%R - round_trip radius couplerLength (nth f wl 0%R)))%C /\
    item S f 3 0
    = (coupler_y couplerLength (nth f wl 0%R) * coupler_y couplerLength (nth f wl 0%R)
       / (1%R - round_trip radius couplerLength (nth f wl 0%R)))%C /\
    item S f 2 0 = C0.
Proof.
  intros Hlen Hf Hreg. eexists. split; [apply racetrackRR_closed, Hlen|].
  rewrite !item_map by exact Hf.
  pose proof (regular_point_denominator _ _ _ Hreg) as Hd.
  unfold round_trip in *.
  set (x := coupler_x couplerLength (nth f wl 0%R)) in *.
  set (y := coupler_y couplerLength (nth f wl 0%R)) in *.
  set (b := bend_transmission 2.323 radius PI (nth f wl 0%R)) in *.
  set (bb := (b * b)%C) in *.
  set (d := (1%R - x * bb * x)%C) in *.
  assert (Hden : forall n : C,
             (n * d / (d * d - C0 * C0) = n / d)%C).
  { intros n. rewrite <- (Cdiv_cancel n d Hd). f_equal.
    apply C_eq; simpl; ring. }
  assert (Hx : (x * bb * x)%C = (1%R - d)%C) by (unfold d; apply C_eq; simpl; ring).
  unfold ring_slice, stage3. fold bb.
  cbn -[Cadd Cmul Csub Cdiv RtoC C0 entry]. unfold entry at 1 2 3. cbn [nth].
  unfold Skrf.innerconnect_entry, entry. cbn [nth]. fold d.
  clearbody d bb. clearbody x y.
  repeat split.
  - f_equal.
    replace (C0 * C0 * d + y * x * (y * bb) * d + C0 * C0 * (y * bb) + y * x * C0 * C0)%C
      with ((y * y * x * bb) * d)%C by (apply C_eq; simpl; ring).
    apply Hden.
  - replace (C0 * C0 * d + y * x * (x * bb * y) * d + C0 * C0 * (x * bb * y)
             + y * x * C0 * C0)%C
      with (((x * bb * x) * (y * y)) * d)%C by (apply C_eq; simpl; ring).
    rewrite Hden, Hx.
    pose proof (Cnonzero_norm d Hd) as Hn.
    destruct y as [yr yi], d as [p q]; simpl in Hn.
    apply C_eq; simpl; field; exact Hn.
  - apply C_eq; simpl; unfold Rdiv; ring.
Qed.

Lemma racetrackRR_through_and_drop_witness :
  exists S,
    racetrackRR Skrf.connect_s Skrf.innerconnect_s
      (Arr1 [0.60158; 0.60158 / 3; 0.120316]%R)
      default_radius default_couplerLength default_gap default_width
      default_thickness = Ok S /\
    item S 0 2 0 = C0.
Proof.
  destruct (racetrackRR_through_and_drop [0.60158; 0.60158 / 3; 0.120316]%R
              default_radius default_couplerLength default_gap default_width
              default_thickness 0) as [S [E [_ [_ H]]]].
  - simpl. lia.
  - simpl. lia.
  - apply dark_point_regular; [simpl; lra|]. simpl nth.
    replace (PI * coupler_dn * default_couplerLength / 0.60158)%R
      with (PI / 2)%R
      by (unfold coupler_dn, coupler_n1, coupler_n2, default_couplerLength; lra).
    apply cos_PI2.
  - exists S. split; assumption.
Defined.

(** X20.  With the cascading functions modelled from section 4.4 of the
    specification, two bends of the same radius in series are one bend:
    connecting port 1 of the bend of angle a1 to port 0 of the bend of
    angle a2 gives the matrix of the bend of angle a1 + a2. *)
Theorem bentWaveguide_connect (wavelength : list R)
    (radius width thickness gap angle1 angle2 : R) :
  exists S1 S2 S12,
    bentWaveguide (Arr1 wavelength) radius width thickness gap angle1 = Ok S1 /\
    bentWaveguide (Arr1 wavelength) radius width thickness gap angle2 = Ok S2 /\
    bentWaveguide (Arr1 wavelength) radius width thickness gap (angle1 + angle2)
    = Ok S12 /\
    Skrf.connect_s S1 1 S2 0 = Ok S12.
Proof.
  do 3 eexists. repeat split; try apply bentWaveguide_closed.
  rewrite connect_s_map by lia. cbn [length]. simpl length. do 2 f_equal.
  apply map_ext. intros lam.
  rewrite connect_two_waveguides, <- bend_transmission_add. reflexivity.
Qed.
